(** * Multi-agent poem generation: a model of [demo.ipynb]

    The notebook chains two chat models through a two-node LangGraph
    [StateGraph]: an image is captioned by the node "Analysis Agent" and the
    caption is turned into a poem by the node "Creative Agent".  The
    conversation lives in the graph's single channel [messages], whose
    reducer is [add_messages].

    The development follows the notebook cell by cell.  Python exceptions
    are values of [Exn]; everything that reads or writes the run's mutable
    state (the channel, the random source behind [uuid.uuid4], the requests
    sent to the model endpoints) is a computation in the monad [M]. *)

From stdpp Require Import base option list strings gmap pretty.
From Stdlib Require Import NArith Lia Ascii.
From Stdlib.Strings Require Import Byte.

Open Scope string_scope.
Open Scope list_scope.

(** ** Messages (langchain_core.messages) *)

(** The message classes the notebook and the reducer distinguish. *)
Inductive MessageType := system | human | ai | remove.

Global Instance MessageType_eq_dec : EqDecision MessageType.
Proof. solve_decision. Defined.

(** One block of a structured [content] list, such as
    [{"type": "image_url", "image_url": {"url": ...}}]. *)
Inductive ContentPart :=
  | text_part (text : string)
  | image_url_part (url : string).

(** [content] is either a [str] or a list of blocks. *)
Inductive Content :=
  | Text (s : string)
  | Parts (ps : list ContentPart).

Record Message := mkMessage {
  msg_type : MessageType;
  msg_content : Content;
  msg_name : option string;
  msg_id : option string
}.

(** [HumanMessage(content=c, name=n)]: no [id] is passed, so it is [None]. *)
Definition HumanMessage (c : Content) (n : option string) : Message :=
  mkMessage human c n None.

Definition SystemMessage (c : string) : Message :=
  mkMessage system (Text c) None None.

Definition AIMessage (c : string) : Message :=
  mkMessage ai (Text c) None None.

Definition with_id (m : Message) (i : string) : Message :=
  mkMessage (msg_type m) (msg_content m) (msg_name m) (Some i).

(** ** Exceptions and the run's mutable state *)

Inductive Exn := PyExn (cls : string) (msg : string).

Definition ValueError := PyExn "ValueError".
Definition IndexError := PyExn "IndexError".
Definition KeyError := PyExn "KeyError".
Definition GraphRecursionError := PyExn "GraphRecursionError".

(** A request sent to a model endpoint: which model, and the prompt. *)
Record LlmCall := mkCall {
  call_model : string;
  call_input : list Message
}.

(** [channel] is the list object behind [state["messages"]]; [uuid_draws]
    counts the calls made to [uuid.uuid4]; [llm_log] lists the requests sent
    so far, oldest first. *)
Record Store := mkStore {
  channel : list Message;
  uuid_draws : nat;
  llm_log : list LlmCall
}.

Definition M (A : Type) : Type := Store → (Exn + A) * Store.

Definition ret {A} (a : A) : M A := λ s, (inr a, s).
Definition raise {A} (e : Exn) : M A := λ s, (inl e, s).
Definition bind {A B} (c : M A) (k : A → M B) : M B :=
  λ s, match c s with
       | (inr a, s') => k a s'
       | (inl e, s') => (inl e, s')
       end.

Global Instance M_ret : MRet M := @ret.
Global Instance M_bind : MBind M := λ A B k c, bind c k.

Definition get_channel : M (list Message) := λ s, (inr (channel s), s).
Definition set_channel (ms : list Message) : M unit :=
  λ s, (inr tt, mkStore ms (uuid_draws s) (llm_log s)).

Fixpoint mapM {A B} (f : A → M B) (l : list A) : M (list B) :=
  match l with
  | [] => ret []
  | a :: l' => b ← f a; bs ← mapM f l'; ret (b :: bs)
  end.

(** ** Base64 ([base64.b64encode], RFC 4648 section 4) *)

Definition b64_alphabet : string :=
  "ABCDEFGHIJKLMNOPQRSTUVWXYZabcdefghijklmnopqrstuvwxyz0123456789+/".

Definition BASE64_PAD : ascii := "="%char.

(** The character of a 6-bit value. *)
Definition b64_char (n : N) : ascii :=
  nth (N.to_nat n) (String.list_ascii_of_string b64_alphabet) BASE64_PAD.

(** Three bytes give four characters; a last group of one or two bytes is
    padded with [=]. *)
Fixpoint b2a_base64 (bin_data : list byte) : list ascii :=
  match bin_data with
  | [] => []
  | [x] =>
      let a := Byte.to_N x in
      [ b64_char (N.shiftr a 2);
        b64_char (N.shiftl (N.land a 3) 4);
        BASE64_PAD; BASE64_PAD ]
  | [x; y] =>
      let a := Byte.to_N x in
      let b := Byte.to_N y in
      [ b64_char (N.shiftr a 2);
        b64_char (N.lor (N.shiftl (N.land a 3) 4) (N.shiftr b 4));
        b64_char (N.shiftl (N.land b 15) 2);
        BASE64_PAD ]
  | x :: y :: z :: rest =>
      let a := Byte.to_N x in
      let b := Byte.to_N y in
      let c := Byte.to_N z in
      b64_char (N.shiftr a 2)
      :: b64_char (N.lor (N.shiftl (N.land a 3) 4) (N.shiftr b 4))
      :: b64_char (N.lor (N.shiftl (N.land b 15) 2) (N.shiftr c 6))
      :: b64_char (N.land c 63)
      :: b2a_base64 rest
  end.

(** [base64.b64encode(data).decode("utf-8")] *)
Definition b64encode (data : list byte) : string :=
  String.string_of_list_ascii (b2a_base64 data).

(** [f"data:image/jpeg;base64,{encoded_string}"] *)
Definition data_url (encoded_string : string) : string :=
  "data:image/jpeg;base64," +:+ encoded_string.

(** *** Reading a data URI back

    The notebook only encodes.  The definitions from here to
    [decode_data_url] are the decoding side of the round trip, which is
    missing from the notebook. *)

(** Modelled from the spec: the position of a character in the base64
    alphabet, the inverse of [b64_char]; no decoder is in the notebook. *)
Fixpoint b64_index_from (table : list ascii) (i : N) (c : ascii) : option N :=
  match table with
  | [] => None
  | t :: table' =>
      if Ascii.eqb t c then Some i else b64_index_from table' (N.succ i) c
  end.

Definition b64_index (c : ascii) : option N :=
  b64_index_from (String.list_ascii_of_string b64_alphabet) 0 c.

(** Modelled from the spec: the base64 decoder (RFC 4648 section 4), absent
    from the notebook: four characters give three bytes, and a last group
    padded with [=] gives one or two. *)
Fixpoint a2b_base64 (ascii_data : list ascii) : option (list byte) :=
  match ascii_data with
  | [] => Some []
  | c0 :: c1 :: c2 :: c3 :: rest =>
      s0 ← b64_index c0;
      s1 ← b64_index c1;
      x ← Byte.of_N (N.lor (N.shiftl s0 2) (N.shiftr s1 4));
      if Ascii.eqb c3 BASE64_PAD then
        match rest with
        | [] =>
            if Ascii.eqb c2 BASE64_PAD then Some [x]
            else
              s2 ← b64_index c2;
              y ← Byte.of_N
                    (N.lor (N.shiftl (N.land s1 15) 4) (N.shiftr s2 2));
              Some [x; y]
        | _ :: _ => None
        end
      else
        s2 ← b64_index c2;
        s3 ← b64_index c3;
        y ← Byte.of_N (N.lor (N.shiftl (N.land s1 15) 4) (N.shiftr s2 2));
        z ← Byte.of_N (N.lor (N.shiftl (N.land s2 3) 6) s3);
        tail ← a2b_base64 rest;
        Some (x :: y :: z :: tail)
  | _ => None
  end.

(** Modelled from the spec: decoding of the payload string, absent from the
    notebook. *)
Definition b64decode (payload : string) : option (list byte) :=
  a2b_base64 (String.list_ascii_of_string payload).

(** Helpers of the parser below: the text before and after the first comma,
    and a string without a given prefix or suffix. *)
Fixpoint split_comma (s : string) : option (string * string) :=
  match s with
  | EmptyString => None
  | String c s' =>
      if Ascii.eqb c ","%char then Some (EmptyString, s')
      else '(header, payload) ← split_comma s'; Some (String c header, payload)
  end.

Definition strip_prefix (p s : string) : option string :=
  if String.prefix p s
  then Some (String.substring (String.length p)
               (String.length s - String.length p) s)
  else None.

Definition strip_suffix (suffix s : string) : option string :=
  let n := (String.length s - String.length suffix)%nat in
  if String.eqb (String.substring n (String.length suffix) s) suffix
  then Some (String.substring 0 n s)
  else None.

(** Modelled from the spec: the media type and the payload of a URI of the
    form [data:<mime-type>;base64,<payload>]; the notebook never parses
    one. *)
Definition parse_data_url (url : string) : option (string * string) :=
  match split_comma url with
  | None => None
  | Some (header, payload) =>
      scheme_less ← strip_prefix "data:" header;
      mime ← strip_suffix ";base64" scheme_less;
      Some (mime, payload)
  end.

(** Modelled from the spec: the media type and the bytes a data URI
    carries, the decoding the round trip speaks of; absent from the
    notebook. *)
Definition decode_data_url (url : string) : option (string * list byte) :=
  match parse_data_url url with
  | None => None
  | Some (mime, payload) => data ← b64decode payload; Some (mime, data)
  end.

(** Checks behind the round trip, each run over every 6-bit value, byte or
    pair of bytes. *)
Definition sextet_ok (n : N) : bool :=
  match b64_index (b64_char n) with
  | Some m => N.eqb m n
  | None => false
  end && negb (Ascii.eqb (b64_char n) BASE64_PAD).

(** The two middle characters of a group mix bits of neighbouring bytes. *)
Definition second_ok (a b : N) : bool :=
  let s1 := N.lor (N.shiftl (N.land a 3) 4) (N.shiftr b 4) in
  N.ltb s1 64 && N.eqb (N.shiftr s1 4) (N.land a 3)
  && N.eqb (N.land s1 15) (N.shiftr b 4).

Definition third_ok (b c : N) : bool :=
  let s2 := N.lor (N.shiftl (N.land b 15) 2) (N.shiftr c 6) in
  N.ltb s2 64 && N.eqb (N.shiftr s2 2) (N.land b 15)
  && N.eqb (N.land s2 3) (N.shiftr c 6).

Definition byte_ok (a : N) : bool :=
  N.ltb (N.shiftr a 2) 64 && N.ltb (N.land a 63) 64
  && N.eqb (N.lor (N.shiftl (N.shiftr a 2) 2) (N.land a 3)) a
  && N.eqb (N.lor (N.shiftl (N.shiftr a 4) 4) (N.land a 15)) a
  && N.eqb (N.lor (N.shiftl (N.shiftr a 6) 6) (N.land a 63)) a
  && N.ltb (N.shiftl (N.land a 3) 4) 64
  && N.eqb (N.shiftr (N.shiftl (N.land a 3) 4) 4) (N.land a 3)
  && N.ltb (N.shiftl (N.land a 15) 2) 64
  && N.eqb (N.shiftr (N.shiftl (N.land a 15) 2) 2) (N.land a 15).

(** ** Stand-ins for the outside world

    Concrete choices for what the notebook leaves to its environment: the
    ids [uuid.uuid4] returns, the template formatter, and stubbed model
    endpoints. *)

(** A template with no brace holds no replacement field. *)
Definition brace_free (template : string) : bool :=
  forallb (λ c, negb (Ascii.eqb c "{"%char) && negb (Ascii.eqb c "}"%char))
    (String.list_ascii_of_string template).

Definition uuid_of (n : nat) : string := "uuid-" +:+ pretty n.

Definition format_plain (template : string) : Exn + string :=
  if brace_free template then inr template
  else inl (ValueError "replacement fields are not bound").

Definition stub_caption (_ : list Message) : Exn + Message :=
  inr (AIMessage "a small hedgehog on grass").

Definition stub_poem (_ : list Message) : Exn + Message :=
  inr (AIMessage "Quills like stars...").

Definition endpoint_down (_ : list Message) : Exn + Message :=
  inl (PyExn "ConnectionError" "connection refused").

(** The first bytes of a JPEG file. *)
Definition jpeg_bytes : list byte := [xff; xd8; xff; xe0; x00; x10].

Definition fresh_store : Store := mkStore [] 0 [].

(** A plain text message that brings its own id, as a further input. *)
Definition text_request : Message :=
  mkMessage human (Text "Describe the picture.") None (Some "question-1").

Section Notebook.

(** The value [str(uuid.uuid4())] takes on its n-th call in a run.  The
    values are random; what the reducer relies on is that none repeats. *)
Variable uuid_gen : nat → string.

Definition uuid4 : M string :=
  λ s, (inr (uuid_gen (uuid_draws s)),
        mkStore (channel s) (S (uuid_draws s)) (llm_log s)).

(** ** The reducer of [State.messages] (langgraph.graph.message) *)

(** [if m.id is None: m.id = str(uuid.uuid4())] *)
Definition assign_id (m : Message) : M Message :=
  match msg_id m with
  | Some _ => ret m
  | None => i ← uuid4; ret (with_id m i)
  end.

(** [{m.id: i for i, m in enumerate(left)}]: a later message with the same
    id overrides an earlier one. *)
Fixpoint index_by_id (left : list Message) (i : nat) (d : gmap string nat)
  : gmap string nat :=
  match left with
  | [] => d
  | m :: left' =>
      index_by_id left' (S i)
        match msg_id m with Some k => <[k := i]> d | None => d end
  end.

(** The merge loop [for m in right: ...] over [merged] and [ids_to_remove],
    as in langgraph 0.2, the release current when the notebook was written:
    an id is looked up among the messages of [left] only. *)
Fixpoint merge_loop (left_idx_by_id : gmap string nat) (right : list Message)
    (merged : list Message) (ids_to_remove : gset string)
  : Exn + (list Message * gset string) :=
  match right with
  | [] => inr (merged, ids_to_remove)
  | m :: right' =>
      match msg_id m ≫= (left_idx_by_id !!.) with
      | Some existing_idx =>
          if decide (msg_type m = remove)
          then merge_loop left_idx_by_id right' merged
                 (ids_to_remove ∪ from_option singleton ∅ (msg_id m))
          else merge_loop left_idx_by_id right'
                 (<[existing_idx := m]> merged) ids_to_remove
      | None =>
          if decide (msg_type m = remove)
          then inl (ValueError
                 "Attempting to delete a message with an ID that doesn't exist")
          else merge_loop left_idx_by_id right' (merged ++ [m]) ids_to_remove
      end
  end.

Definition kept (ids_to_remove : gset string) (m : Message) : bool :=
  match msg_id m with
  | Some k => bool_decide (k ∉ ids_to_remove)
  | None => true
  end.

(** [add_messages(left, right)]: ids are assigned first (left, then right),
    then [right] is merged into a copy of [left] by id. *)
Definition add_messages (left right : list Message) : M (list Message) :=
  left1 ← mapM assign_id left;
  right1 ← mapM assign_id right;
  match merge_loop (index_by_id left1 0 ∅) right1 left1 ∅ with
  | inl e => raise e
  | inr (merged, ids_to_remove) =>
      ret (filter (λ m, kept ids_to_remove m = true) merged)
  end.

(** ** Prompt templates and chat models (langchain_core, langchain_ollama) *)

(** [str.format] on a prompt template with no variables bound.  The
    notebook's prompts contain no braces, and formatting a brace-free
    template returns it unchanged; on other templates the result is left
    to the library. *)
Variable fstring_format : string → Exn + string.

Inductive PromptItem :=
  | role_template (role : MessageType) (template : string)
  | MessagesPlaceholder (variable_name : string).

Definition ChatPromptTemplate := list PromptItem.

(** [ChatOllama(model=...)]: [generate] is the answer of the endpoint to a
    prompt, an [AIMessage] or an exception. *)
Record ChatOllama := mkChatOllama {
  model : string;
  generate : list Message → Exn + Message
}.

(** The runnable [prompt | llm]. *)
Record Agent := mkAgent {
  prompt : ChatPromptTemplate;
  llm : ChatOllama
}.

(** The prompt is invoked on a bare list: its single input variable, the
    placeholder, is bound to that list. *)
Definition format_item (input : list Message) (it : PromptItem)
  : M (list Message) :=
  match it with
  | role_template role template =>
      match fstring_format template with
      | inl e => raise e
      | inr text => ret [mkMessage role (Text text) None None]
      end
  | MessagesPlaceholder _ => ret input
  end.

Definition format_messages (p : ChatPromptTemplate) (input : list Message)
  : M (list Message) :=
  chunks ← mapM (format_item input) p; ret (concat chunks).

Definition log_call (c : LlmCall) (s : Store) : Store :=
  mkStore (channel s) (uuid_draws s) (llm_log s ++ [c]).

Definition llm_invoke (l : ChatOllama) (input : list Message) : M Message :=
  λ s, (generate l input, log_call (mkCall (model l) input) s).

Definition invoke (agent : Agent) (input : list Message) : M Message :=
  prompt_value ← format_messages (prompt agent) input;
  llm_invoke (llm agent) prompt_value.

(** ** Helper functions *)

Definition create_agent (llm : ChatOllama) (system_prompt : string) : Agent :=
  let prompt :=
    [ role_template system system_prompt;
      MessagesPlaceholder "messages" ] in
  mkAgent prompt llm.

(** The [State] TypedDict; a node's return value is a dict of the same
    shape. *)
Record State := mkState { messages : list Message }.

Definition agent_node (state : State) (agent : Agent) (name : string)
  : M State :=
  result ← invoke agent (messages state);
  ret (mkState [HumanMessage (msg_content result) (Some name)]).

(** ** Creating the graph *)

Definition Node := State → M State.

Record StateGraph := mkStateGraph {
  nodes : gmap string Node;
  edges : list (string * string)
}.

Definition START := "__start__".
Definition END := "__end__".

Definition add_node (name : string) (action : Node) (g : StateGraph)
  : StateGraph :=
  mkStateGraph (<[name := action]> (nodes g)) (edges g).

Definition add_edge (start_key end_key : string) (g : StateGraph)
  : StateGraph :=
  mkStateGraph (nodes g) (edges g ++ [(start_key, end_key)]).

Definition analysis_prompt :=
  "You are the Analyst Agent, an expert in visual analysis. 
Your task is to examine images in detail and provide a comprehensive description 
of what you see. Describe the scene as thoroughly as possible".

Definition creative_prompt :=
  "You are the Creator Agent, a talented poet and creative writer. 
Your task is to take detailed descriptions of images provided by the Analyst Agent 
and craft a funny poem based on the imagery and emotions conveyed. ".

(** The answers of the two Ollama endpoints. *)
Variable moondream gemma2_2b : list Message → Exn + Message.

Definition analysis_llm := mkChatOllama "moondream" moondream.
Definition creative_llm := mkChatOllama "gemma2:2b" gemma2_2b.

Definition analysis_agent := create_agent analysis_llm creative_prompt.
Definition creative_agent := create_agent creative_llm creative_prompt.

Definition analysis_node : Node :=
  λ state, agent_node state analysis_agent "Analysis Agent".
Definition creative_node : Node :=
  λ state, agent_node state creative_agent "Creative Agent".

Definition graph_builder : StateGraph :=
  add_edge "Creative Agent" END
    (add_edge "Analysis Agent" "Creative Agent"
      (add_edge START "Analysis Agent"
        (add_node "Creative Agent" creative_node
          (add_node "Analysis Agent" analysis_node
            (mkStateGraph ∅ []))))).

(** ** Running the graph (langgraph.pregel)

    A compiled graph runs in supersteps.  The tasks of a superstep all read
    the channel as it stood when the step began; their writes go through
    the reducer once every task has returned, and each task's update is
    then yielded to the caller as one [{node: update}] event.  The next
    superstep runs the targets of the edges that leave the nodes just run.
    At most [recursion_limit] supersteps are taken. *)

Definition recursion_limit : nat := 25.

(** How a run ended: [during] is the node whose task raised, when the
    exception came out of a task. *)
Inductive Outcome :=
  | Finished
  | Raised (during : option string) (e : Exn).

Definition Event := list (string * State).

Definition run_task (g : StateGraph) (state : State) (name : string)
  : M State :=
  match nodes g !! name with
  | Some action => action state
  | None => raise (KeyError name)
  end.

Fixpoint run_tasks (g : StateGraph) (state : State) (tasks : list string)
    (s : Store) : (string * Exn + list (string * State)) * Store :=
  match tasks with
  | [] => (inr [], s)
  | name :: tasks' =>
      match run_task g state name s with
      | (inl e, s1) => (inl (name, e), s1)
      | (inr update, s1) =>
          match run_tasks g state tasks' s1 with
          | (inl err, s2) => (inl err, s2)
          | (inr writes, s2) => (inr ((name, update) :: writes), s2)
          end
      end
  end.

Fixpoint apply_writes (writes : list (string * State)) : M unit :=
  match writes with
  | [] => ret tt
  | (_, update) :: writes' =>
      value ← get_channel;
      merged ← add_messages value (messages update);
      _ ← set_channel merged;
      apply_writes writes'
  end.

Definition next_tasks (g : StateGraph) (ran : list string) : list string :=
  remove_dups
    (filter (λ n, n ≠ END)
       (omap (λ e, if decide (e.1 ∈ ran) then Some e.2 else None) (edges g))).

(** What a run leaves behind: the events yielded, what the consumer made of
    them, the channel after the input and after each superstep, and how
    the run ended. *)
Record Run (O : Type) := mkRun {
  events : list Event;
  output : list O;
  history : list (list Message);
  outcome : Outcome
}.
#[global] Arguments mkRun {O}.
#[global] Arguments events {O}.
#[global] Arguments output {O}.
#[global] Arguments history {O}.
#[global] Arguments outcome {O}.

(** The generator is driven by its consumer: [body] runs on each event as
    it is yielded and returns what it produced together with the exception
    it raised, if any; an exception in [body] ends the run, and what was
    produced before it stays. *)
Fixpoint consume {O} (body : Event → list O * option Exn) (evs : list Event)
  : list O * option Exn :=
  match evs with
  | [] => ([], None)
  | ev :: evs' =>
      match body ev with
      | (out, Some e) => (out, Some e)
      | (out, None) =>
          let '(outs, r) := consume body evs' in (out ++ outs, r)
      end
  end.

(** One superstep: run the tasks, reduce their writes into the channel,
    yield their events to the consumer. *)
Definition superstep {O} (g : StateGraph) (body : Event → list O * option Exn)
    (tasks : list string) (r : Run O) (s : Store) : Run O * Store :=
  match run_tasks g (mkState (channel s)) tasks s with
  | (inl (name, e), s1) =>
      (mkRun (events r) (output r) (history r) (Raised (Some name) e), s1)
  | (inr writes, s1) =>
      match apply_writes writes s1 with
      | (inl e, s2) =>
          (mkRun (events r) (output r) (history r) (Raised None e), s2)
      | (inr _, s2) =>
          let evs := map (λ w, [w]) writes in
          let '(outs, raised) := consume body evs in
          (mkRun (events r ++ evs) (output r ++ outs)
             (history r ++ [channel s2])
             match raised with
             | Some e => Raised None e
             | None => Finished
             end, s2)
      end
  end.

Fixpoint pregel_loop {O} (fuel : nat) (g : StateGraph)
    (body : Event → list O * option Exn) (tasks : list string) (r : Run O)
    (s : Store) : Run O * Store :=
  match tasks with
  | [] => (r, s)
  | _ :: _ =>
      match fuel with
      | 0 => (mkRun (events r) (output r) (history r)
                (Raised None (GraphRecursionError "Recursion limit reached")),
              s)
      | S fuel' =>
          let '(r1, s1) := superstep g body tasks r s in
          match outcome r1 with
          | Finished =>
              pregel_loop fuel' g body (next_tasks g tasks) r1 s1
          | Raised _ _ => (r1, s1)
          end
      end
  end.

(** [graph.stream(input)], consumed by a [for] loop with body [body].  A
    run starts from fresh channels; the input is written through the
    reducer before the first superstep. *)
Definition stream {O} (g : StateGraph) (input : State)
    (body : Event → list O * option Exn) (s : Store) : Run O * Store :=
  match (merged ← add_messages [] (messages input); set_channel merged)
          (mkStore [] (uuid_draws s) (llm_log s)) with
  | (inl e, s1) => (mkRun [] [] [] (Raised None e), s1)
  | (inr _, s1) =>
      pregel_loop recursion_limit g body (next_tasks g [START])
        (mkRun [] [] [channel s1] Finished) s1
  end.

(** [graph = graph_builder.compile()] *)
Definition graph : StateGraph := graph_builder.

(** ** Passing in multi-modal data *)

(** [image] is what [file.read()] returns for [images/hedgehog.jpg]. *)
Definition encoded_string (image : list byte) : string := b64encode image.

Definition message (image : list byte) : Message :=
  HumanMessage
    (Parts [image_url_part (data_url (encoded_string image))]) None.

(** ** Running the notebook's last cell *)

(** One printed entry, [f"---\n{message.name}: {message.content}"], kept as
    the pair it is formatted from. *)
Definition Printed := (option string * Content)%type.

(** [for value in event.values(): message = value["messages"][-1]; print]:
    the entries printed, and the [IndexError] of an empty update, which
    ends the loop after the entries printed before it. *)
Fixpoint print_event (event : Event) : list Printed * option Exn :=
  match event with
  | [] => ([], None)
  | (_, value) :: event' =>
      match last (messages value) with
      | None => ([], Some (IndexError "list index out of range"))
      | Some message =>
          let '(out, raised) := print_event event' in
          ((msg_name message, msg_content message) :: out, raised)
      end
  end.

Definition run_cell (initial : Message) (s : Store) : Run Printed * Store :=
  stream graph (mkState [initial]) print_event s.

(** ** What the properties are stated over *)

(** The initial initial cannot be a [RemoveMessage], and an id it brings
    along is not one [uuid.uuid4] returns during the run. *)
Definition valid_initial (initial : Message) : Prop :=
  msg_type initial ≠ remove ∧
  ∀ i n, msg_id initial = Some i → uuid_gen n ≠ i.

(** The initial initial as the reducer stores it. *)
Definition stored_initial (initial : Message) (s : Store) : Message :=
  match msg_id initial with
  | Some _ => initial
  | None => with_id initial (uuid_gen (uuid_draws s))
  end.

Definition draws_after_input (initial : Message) (s : Store) : nat :=
  match msg_id initial with
  | Some _ => uuid_draws s
  | None => S (uuid_draws s)
  end.

Definition analysis_input (initial : Message) (s : Store) : list Message :=
  [SystemMessage creative_prompt; stored_initial initial s].

Definition analysis_message (result : Message) : Message :=
  HumanMessage (msg_content result) (Some "Analysis Agent").

Definition stored_analysis (initial : Message) (s : Store)
    (result : Message) : Message :=
  with_id (analysis_message result) (uuid_gen (draws_after_input initial s)).

Definition creative_input (initial : Message) (s : Store)
    (result : Message) : list Message :=
  [SystemMessage creative_prompt; stored_initial initial s;
   stored_analysis initial s result].

Definition creative_message (result : Message) : Message :=
  HumanMessage (msg_content result) (Some "Creative Agent").

Definition stored_creative (initial : Message) (s : Store)
    (result : Message) : Message :=
  with_id (creative_message result)
    (uuid_gen (S (draws_after_input initial s))).

Definition analysis_call (initial : Message) (s : Store) : LlmCall :=
  mkCall "moondream" (analysis_input initial s).

Definition creative_call (initial : Message) (s : Store) (result : Message)
  : LlmCall :=
  mkCall "gemma2:2b" (creative_input initial s result).

(** A model endpoint stubbed to answer every prompt with one fixed text. *)
Definition stubbed (endpoint : list Message → Exn + Message)
    (text : string) : Prop :=
  ∀ input, endpoint input = inr (AIMessage text).

(** The requests sent during a run of the last cell. *)
Definition calls_during (initial : Message) (s : Store) : list LlmCall :=
  drop (length (llm_log s)) (llm_log (run_cell initial s).2).

(** The input of a run as the reducer stores it when [n] ids have been
    drawn so far: a message without an id takes the next one. *)
Fixpoint stored_input (input : list Message) (n : nat) : list Message :=
  match input with
  | [] => []
  | m :: input' =>
      match msg_id m with
      | Some _ => m :: stored_input input' n
      | None => with_id m (uuid_gen n) :: stored_input input' (S n)
      end
  end.

Fixpoint draws_after (input : list Message) (n : nat) : nat :=
  match input with
  | [] => n
  | m :: input' =>
      match msg_id m with
      | Some _ => draws_after input' n
      | None => draws_after input' (S n)
      end
  end.

Hypothesis uuid_gen_inj : Inj (=) (=) uuid_gen.
Hypothesis fstring_format_plain :
  ∀ template, brace_free template = true →
    fstring_format template = inr template.

(** ** Lemmas *)

Lemma bind_eq {A B} (c : M A) (k : A → M B) (s : Store) :
  (c ≫= k) s =
    match c s with
    | (inr a, s') => k a s'
    | (inl e, s') => (inl e, s')
    end.
Proof. reflexivity. Qed.

Lemma mapM_cons {A B} (f : A → M B) (a : A) (l : list A) :
  mapM f (a :: l) = (b ← f a; bs ← mapM f l; ret (b :: bs)).
Proof. reflexivity. Qed.

Lemma msg_type_with_id (m : Message) (i : string) :
  msg_type (with_id m i) = msg_type m.
Proof. reflexivity. Qed.

Lemma msg_id_with_id (m : Message) (i : string) :
  msg_id (with_id m i) = Some i.
Proof. reflexivity. Qed.

Lemma assign_id_Some (m : Message) (i : string) (s : Store) :
  msg_id m = Some i → assign_id m s = (inr m, s).
Proof. intros E. unfold assign_id. by rewrite E. Qed.

Lemma assign_id_None (m : Message) (s : Store) :
  msg_id m = None →
  assign_id m s =
    (inr (with_id m (uuid_gen (uuid_draws s))),
     mkStore (channel s) (S (uuid_draws s)) (llm_log s)).
Proof. intros E. unfold assign_id. by rewrite E. Qed.

Lemma mapM_assign_id_done (l : list Message) (s : Store) :
  Forall (λ m, is_Some (msg_id m)) l → mapM assign_id l s = (inr l, s).
Proof.
  induction 1 as [|m l [i Hi] _ IH]; [done|].
  rewrite mapM_cons, bind_eq, (assign_id_Some m i) by done.
  by rewrite bind_eq, IH.
Qed.

Lemma index_by_id_None (l : list Message) (i : nat) (d : gmap string nat)
    (k : string) :
  Forall (λ m, msg_id m ≠ Some k) l → d !! k = None →
  index_by_id l i d !! k = None.
Proof.
  intros Hl. revert i d.
  induction Hl as [|m l Hm _ IH]; intros i d Hd; [done|].
  cbn. apply IH. destruct (msg_id m) as [k'|] eqn:E; [|done].
  rewrite lookup_insert_ne; [done|congruence].
Qed.

Lemma filter_kept_empty (l : list Message) :
  filter (λ m, kept ∅ m = true) l = l.
Proof.
  induction l as [|m l IH]; [done|].
  rewrite filter_cons_True; [by rewrite IH|].
  unfold kept. destruct (msg_id m); [|done].
  apply bool_decide_eq_true. set_solver.
Qed.

(** Appending one id-less message to a conversation whose ids are all set
    and differ from the next uuid. *)
Lemma add_messages_append (conv : list Message) (m : Message) (s : Store) :
  Forall (λ x, is_Some (msg_id x)) conv →
  Forall (λ x, msg_id x ≠ Some (uuid_gen (uuid_draws s))) conv →
  msg_id m = None → msg_type m ≠ remove →
  add_messages conv [m] s =
    (inr (conv ++ [with_id m (uuid_gen (uuid_draws s))]),
     mkStore (channel s) (S (uuid_draws s)) (llm_log s)).
Proof.
  intros Hids Hfresh Hm Hty. unfold add_messages.
  rewrite bind_eq, mapM_assign_id_done by done.
  rewrite bind_eq, mapM_cons, bind_eq, assign_id_None by done.
  cbn [mapM]. rewrite bind_eq. cbn [ret merge_loop].
  rewrite msg_id_with_id, msg_type_with_id. cbn [mbind option_bind].
  rewrite index_by_id_None by done.
  destruct (decide (msg_type m = remove)) as [|_]; [done|].
  cbn [merge_loop]. by rewrite filter_kept_empty.
Qed.

(** Writing the input of a run into the empty channel. *)
Lemma add_messages_initial (m : Message) (s : Store) :
  msg_type m ≠ remove →
  add_messages [] [m] s =
    (inr [stored_initial m s],
     mkStore (channel s) (draws_after_input m s) (llm_log s)).
Proof.
  intros Hty. unfold add_messages, stored_initial, draws_after_input.
  rewrite bind_eq. cbn [mapM ret]. rewrite !bind_eq.
  destruct (msg_id m) as [i|] eqn:E.
  - rewrite (assign_id_Some m i) by done. rewrite bind_eq.
    cbn [ret merge_loop index_by_id mbind option_bind]. rewrite E.
    cbn [mbind option_bind]. rewrite lookup_empty.
    destruct (decide (msg_type m = remove)) as [|_]; [done|].
    cbn [merge_loop app]. rewrite filter_kept_empty. by destruct s.
  - rewrite assign_id_None by done. rewrite bind_eq.
    cbn [ret merge_loop index_by_id].
    rewrite msg_id_with_id, msg_type_with_id. cbn [mbind option_bind].
    rewrite lookup_empty.
    destruct (decide (msg_type m = remove)) as [|_]; [done|].
    cbn [merge_loop app]. by rewrite filter_kept_empty.
Qed.

(** *** One agent invocation *)

Lemma format_messages_create_agent (l : ChatOllama) (system_prompt : string)
    (input : list Message) (s : Store) :
  brace_free system_prompt = true →
  format_messages (prompt (create_agent l system_prompt)) input s =
    (inr (SystemMessage system_prompt :: input), s).
Proof.
  intros Hp. unfold format_messages, create_agent. cbn [prompt].
  rewrite bind_eq, !mapM_cons, bind_eq. cbn [format_item].
  rewrite (fstring_format_plain _ Hp). cbn [ret].
  rewrite !bind_eq. cbn [format_item mapM ret]. rewrite !bind_eq.
  cbn [ret concat app]. by rewrite app_nil_r.
Qed.

Lemma invoke_create_agent (l : ChatOllama) (system_prompt : string)
    (input : list Message) (s : Store) :
  brace_free system_prompt = true →
  invoke (create_agent l system_prompt) input s =
    (generate l (SystemMessage system_prompt :: input),
     log_call (mkCall (model l) (SystemMessage system_prompt :: input)) s).
Proof.
  intros Hp. unfold invoke.
  by rewrite bind_eq, format_messages_create_agent.
Qed.

Lemma agent_node_create_agent (state : State) (l : ChatOllama)
    (system_prompt name : string) (s : Store) :
  brace_free system_prompt = true →
  agent_node state (create_agent l system_prompt) name s =
    (match generate l (SystemMessage system_prompt :: messages state) with
     | inl e => inl e
     | inr result =>
         inr (mkState [HumanMessage (msg_content result) (Some name)])
     end,
     log_call
       (mkCall (model l) (SystemMessage system_prompt :: messages state)) s).
Proof.
  intros Hp. unfold agent_node.
  rewrite bind_eq, invoke_create_agent by done.
  by destruct (generate l _).
Qed.

Lemma creative_prompt_brace_free : brace_free creative_prompt = true.
Proof. reflexivity. Qed.

Lemma analysis_prompt_brace_free : brace_free analysis_prompt = true.
Proof. reflexivity. Qed.

Lemma next_tasks_START : next_tasks graph [START] = ["Analysis Agent"].
Proof. reflexivity. Qed.

Lemma next_tasks_analysis :
  next_tasks graph ["Analysis Agent"] = ["Creative Agent"].
Proof. reflexivity. Qed.

Lemma next_tasks_creative : next_tasks graph ["Creative Agent"] = [].
Proof. reflexivity. Qed.

Lemma run_task_analysis (state : State) :
  run_task graph state "Analysis Agent" =
    agent_node state analysis_agent "Analysis Agent".
Proof. reflexivity. Qed.

Lemma run_task_creative (state : State) :
  run_task graph state "Creative Agent" =
    agent_node state creative_agent "Creative Agent".
Proof. reflexivity. Qed.

Lemma stored_initial_has_id (m : Message) (s : Store) :
  is_Some (msg_id (stored_initial m s)).
Proof. unfold stored_initial. destruct (msg_id m) eqn:E; rewrite ?E; eauto. Qed.

(** No later draw returns the id of the stored initial message. *)
Lemma stored_initial_fresh (m : Message) (s : Store) (n : nat) :
  valid_initial m → (draws_after_input m s ≤ n)%nat →
  msg_id (stored_initial m s) ≠ Some (uuid_gen n).
Proof.
  intros [_ Hid] Hn. unfold stored_initial, draws_after_input in *.
  destruct (msg_id m) as [i|] eqn:E.
  - rewrite E. intros [= ->]. by eapply Hid.
  - rewrite msg_id_with_id. intros [= H%uuid_gen_inj]. lia.
Qed.

Lemma run_tasks_single (g : StateGraph) (state : State) (name : string)
    (s : Store) :
  run_tasks g state [name] s =
    match run_task g state name s with
    | (inl e, s1) => (inl (name, e), s1)
    | (inr update, s1) => (inr [(name, update)], s1)
    end.
Proof. cbn [run_tasks]. by destruct (run_task g state name s) as [[?|?] ?]. Qed.

Lemma apply_writes_single (name : string) (update : State) (s : Store) :
  apply_writes [(name, update)] s =
    match add_messages (channel s) (messages update) s with
    | (inl e, s1) => (inl e, s1)
    | (inr merged, s1) =>
        (inr tt, mkStore merged (uuid_draws s1) (llm_log s1))
    end.
Proof.
  cbn [apply_writes]. rewrite bind_eq. cbn [get_channel]. rewrite bind_eq.
  destruct (add_messages _ _ s) as [[e|merged] s1]; [done|].
  by rewrite bind_eq.
Qed.

Lemma pregel_loop_S {O} (fuel : nat) (g : StateGraph)
    (body : Event → list O * option Exn) (t : string) (ts : list string)
    (r : Run O) (s : Store) :
  pregel_loop (S fuel) g body (t :: ts) r s =
    let '(r1, s1) := superstep g body (t :: ts) r s in
    match outcome r1 with
    | Finished => pregel_loop fuel g body (next_tasks g (t :: ts)) r1 s1
    | Raised _ _ => (r1, s1)
    end.
Proof. reflexivity. Qed.

Lemma pregel_loop_nil {O} (fuel : nat) (g : StateGraph)
    (body : Event → list O * option Exn) (r : Run O) (s : Store) :
  pregel_loop fuel g body [] r s = (r, s).
Proof. by destruct fuel. Qed.

Lemma superstep_raises {O} (g : StateGraph) (body : Event → list O * option Exn)
    (name : string) (r : Run O) (s s1 : Store) (e : Exn) :
  run_task g (mkState (channel s)) name s = (inl e, s1) →
  superstep g body [name] r s =
    (mkRun (events r) (output r) (history r) (Raised (Some name) e), s1).
Proof. intros H. unfold superstep. by rewrite run_tasks_single, H. Qed.

Lemma superstep_appends (g : StateGraph) (name : string) (msg : Message)
    (merged : list Message) (r : Run Printed) (s s1 s2 : Store) :
  run_task g (mkState (channel s)) name s = (inr (mkState [msg]), s1) →
  add_messages (channel s1) [msg] s1 = (inr merged, s2) →
  superstep g print_event [name] r s =
    (mkRun (events r ++ [[(name, mkState [msg])]])
       (output r ++ [(msg_name msg, msg_content msg)])
       (history r ++ [merged]) Finished,
     mkStore merged (uuid_draws s2) (llm_log s2)).
Proof.
  intros Htask Hadd. unfold superstep.
  rewrite run_tasks_single, Htask, apply_writes_single. cbn [messages].
  by rewrite Hadd.
Qed.

Lemma run_cell_start (m : Message) (s : Store) :
  valid_initial m →
  run_cell m s =
    pregel_loop recursion_limit graph print_event ["Analysis Agent"]
      (mkRun [] [] [[stored_initial m s]] Finished)
      (mkStore [stored_initial m s] (draws_after_input m s) (llm_log s)).
Proof.
  intros [Hty _]. unfold run_cell, stream. cbn [messages].
  rewrite bind_eq, add_messages_initial by done.
  cbn [set_channel channel uuid_draws llm_log].
  by rewrite next_tasks_START.
Qed.

Lemma run_cell_analysis_fails (m : Message) (s : Store) (e : Exn) :
  valid_initial m →
  moondream (analysis_input m s) = inl e →
  run_cell m s =
    (mkRun [] [] [[stored_initial m s]] (Raised (Some "Analysis Agent") e),
     mkStore [stored_initial m s] (draws_after_input m s)
       (llm_log s ++ [mkCall "moondream" (analysis_input m s)])).
Proof.
  intros Hm He. rewrite run_cell_start by done.
  change recursion_limit with (S 24). rewrite pregel_loop_S.
  erewrite superstep_raises; [reflexivity|].
  rewrite run_task_analysis. unfold analysis_agent.
  rewrite agent_node_create_agent by apply creative_prompt_brace_free.
  cbn [messages channel generate analysis_llm model].
  unfold analysis_input in He. by rewrite He. 
Qed.

Lemma analysis_superstep (m : Message) (s : Store) (r1 : Message) :
  valid_initial m →
  moondream (analysis_input m s) = inr r1 →
  superstep graph print_event ["Analysis Agent"]
    (mkRun [] [] [[stored_initial m s]] Finished)
    (mkStore [stored_initial m s] (draws_after_input m s) (llm_log s)) =
  (mkRun [[("Analysis Agent", mkState [analysis_message r1])]]
     [(Some "Analysis Agent", msg_content r1)]
     [[stored_initial m s]; [stored_initial m s; stored_analysis m s r1]]
     Finished,
   mkStore [stored_initial m s; stored_analysis m s r1]
     (S (draws_after_input m s)) (llm_log s ++ [analysis_call m s])).
Proof.
  intros Hm He.
  rewrite (superstep_appends graph _ (analysis_message r1)
             [stored_initial m s; stored_analysis m s r1] _ _
             (log_call (analysis_call m s)
                (mkStore [stored_initial m s] (draws_after_input m s)
                   (llm_log s)))
             (mkStore [stored_initial m s] (S (draws_after_input m s))
                (llm_log s ++ [analysis_call m s]))); [reflexivity| |].
  - rewrite run_task_analysis. unfold analysis_agent.
    rewrite agent_node_create_agent by apply creative_prompt_brace_free.
    cbn [messages channel generate analysis_llm model].
    unfold analysis_input in He. rewrite He. reflexivity.
  - unfold log_call. cbn [channel uuid_draws llm_log].
    rewrite add_messages_append; [reflexivity|..]; try done.
    + repeat constructor. apply stored_initial_has_id.
    + repeat constructor. cbn [uuid_draws]. by apply stored_initial_fresh.
Qed.

Lemma stored_analysis_fresh (m : Message) (s : Store) (r1 : Message)
    (n : nat) :
  (draws_after_input m s < n)%nat →
  msg_id (stored_analysis m s r1) ≠ Some (uuid_gen n).
Proof.
  intros Hn. unfold stored_analysis. rewrite msg_id_with_id.
  intros [= H%uuid_gen_inj]. lia.
Qed.

Lemma creative_task (m : Message) (s : Store) (r1 : Message) :
  run_task graph
    (mkState [stored_initial m s; stored_analysis m s r1]) "Creative Agent"
    (mkStore [stored_initial m s; stored_analysis m s r1]
       (S (draws_after_input m s)) (llm_log s ++ [analysis_call m s])) =
  (match gemma2_2b (creative_input m s r1) with
   | inl e => inl e
   | inr r2 => inr (mkState [creative_message r2])
   end,
   mkStore [stored_initial m s; stored_analysis m s r1]
     (S (draws_after_input m s))
     (llm_log s ++ [analysis_call m s; creative_call m s r1])).
Proof.
  rewrite run_task_creative. unfold creative_agent.
  rewrite agent_node_create_agent by apply creative_prompt_brace_free.
  unfold log_call.
  cbn [messages channel uuid_draws llm_log generate creative_llm model].
  by rewrite <- app_assoc.
Qed.

Lemma creative_superstep (m : Message) (s : Store) (r1 r2 : Message)
    (r : Run Printed) :
  valid_initial m →
  gemma2_2b (creative_input m s r1) = inr r2 →
  superstep graph print_event ["Creative Agent"] r
    (mkStore [stored_initial m s; stored_analysis m s r1]
       (S (draws_after_input m s)) (llm_log s ++ [analysis_call m s])) =
  (mkRun (events r ++ [[("Creative Agent", mkState [creative_message r2])]])
     (output r ++ [(Some "Creative Agent", msg_content r2)])
     (history r ++
        [[stored_initial m s; stored_analysis m s r1;
          stored_creative m s r2]])
     Finished,
   mkStore
     [stored_initial m s; stored_analysis m s r1; stored_creative m s r2]
     (S (S (draws_after_input m s)))
     (llm_log s ++ [analysis_call m s; creative_call m s r1])).
Proof.
  intros Hm He.
  rewrite (superstep_appends graph _ (creative_message r2)
             [stored_initial m s; stored_analysis m s r1;
              stored_creative m s r2] _ _
             (mkStore [stored_initial m s; stored_analysis m s r1]
                (S (draws_after_input m s))
                (llm_log s ++ [analysis_call m s; creative_call m s r1]))
             (mkStore [stored_initial m s; stored_analysis m s r1]
                (S (S (draws_after_input m s)))
                (llm_log s ++ [analysis_call m s; creative_call m s r1])));
    [reflexivity| |].
  - cbn [channel]. by rewrite creative_task, He.
  - cbn [channel].
    rewrite add_messages_append; [reflexivity|..]; try done.
    + repeat constructor; [apply stored_initial_has_id|].
      unfold stored_analysis. rewrite msg_id_with_id. eauto.
    + cbn [uuid_draws]. repeat constructor.
      * apply stored_initial_fresh; [done|lia].
      * apply stored_analysis_fresh. lia.
Qed.

Lemma run_cell_creative_fails (m : Message) (s : Store) (r1 : Message)
    (e : Exn) :
  valid_initial m →
  moondream (analysis_input m s) = inr r1 →
  gemma2_2b (creative_input m s r1) = inl e →
  run_cell m s =
    (mkRun [[("Analysis Agent", mkState [analysis_message r1])]]
       [(Some "Analysis Agent", msg_content r1)]
       [[stored_initial m s]; [stored_initial m s; stored_analysis m s r1]]
       (Raised (Some "Creative Agent") e),
     mkStore [stored_initial m s; stored_analysis m s r1]
       (S (draws_after_input m s))
       (llm_log s ++ [analysis_call m s; creative_call m s r1])).
Proof.
  intros Hm H1 H2. rewrite run_cell_start by done.
  change recursion_limit with (S (S 23)).
  rewrite pregel_loop_S, (analysis_superstep m s r1) by done.
  cbn [outcome]. rewrite next_tasks_analysis, pregel_loop_S.
  erewrite superstep_raises; [reflexivity|].
  cbn [channel]. by rewrite creative_task, H2.
Qed.

Lemma run_cell_finished (m : Message) (s : Store) (r1 r2 : Message) :
  valid_initial m →
  moondream (analysis_input m s) = inr r1 →
  gemma2_2b (creative_input m s r1) = inr r2 →
  run_cell m s =
    (mkRun [[("Analysis Agent", mkState [analysis_message r1])];
            [("Creative Agent", mkState [creative_message r2])]]
       [(Some "Analysis Agent", msg_content r1);
        (Some "Creative Agent", msg_content r2)]
       [[stored_initial m s];
        [stored_initial m s; stored_analysis m s r1];
        [stored_initial m s; stored_analysis m s r1;
         stored_creative m s r2]]
       Finished,
     mkStore
       [stored_initial m s; stored_analysis m s r1; stored_creative m s r2]
       (S (S (draws_after_input m s)))
       (llm_log s ++ [analysis_call m s; creative_call m s r1])).
Proof.
  intros Hm H1 H2. rewrite run_cell_start by done.
  change recursion_limit with (S (S 23)).
  rewrite pregel_loop_S, (analysis_superstep m s r1) by done.
  cbn [outcome]. rewrite next_tasks_analysis, pregel_loop_S.
  rewrite (creative_superstep m s r1 r2) by done.
  cbn [outcome]. by rewrite next_tasks_creative, pregel_loop_nil.
Qed.

(** *** The store across one agent invocation *)

Lemma mapM_format_item_store (input : list Message) (p : ChatPromptTemplate)
    (s : Store) :
  (mapM (format_item input) p s).2 = s.
Proof.
  induction p as [|it p IH]; [done|].
  rewrite mapM_cons, bind_eq.
  assert ((format_item input it s).2 = s) as Hit.
  { destruct it as [role template|v]; cbn [format_item]; [|done].
    by destruct (fstring_format template). }
  destruct (format_item input it s) as [[e|chunk] s1]; cbn [snd] in Hit;
    subst s1; [done|].
  rewrite bind_eq.
  destruct (mapM (format_item input) p s) as [[e|chunks] s2];
    cbn [snd] in IH; by subst s2.
Qed.

Lemma format_messages_store (p : ChatPromptTemplate) (input : list Message)
    (s : Store) :
  (format_messages p input s).2 = s.
Proof.
  unfold format_messages. rewrite bind_eq.
  pose proof (mapM_format_item_store input p s) as H.
  destruct (mapM (format_item input) p s) as [[e|chunks] s1];
    cbn [snd] in H; by subst s1.
Qed.

(** Whatever the prompt and the model, a node built by [agent_node]
    touches the request log only, and an update it returns is one
    [HumanMessage] carrying the node's name. *)
Lemma agent_node_frame (state : State) (agent : Agent) (name : string)
    (s : Store) :
  channel (agent_node state agent name s).2 = channel s ∧
  uuid_draws (agent_node state agent name s).2 = uuid_draws s ∧
  match (agent_node state agent name s).1 with
  | inr update =>
      ∃ result,
        update = mkState [HumanMessage (msg_content result) (Some name)]
  | inl _ => True
  end.
Proof.
  unfold agent_node, invoke. rewrite !bind_eq.
  pose proof (format_messages_store (prompt agent) (messages state) s) as H.
  destruct (format_messages _ _ s) as [[e|prompt_value] s1];
    cbn [snd] in H; subst s1; [done|].
  unfold llm_invoke.
  destruct (generate (llm agent) prompt_value) as [e|result]; cbn; eauto.
Qed.

Lemma calls_during_eq (initial : Message) (s : Store) (new : list LlmCall) :
  llm_log (run_cell initial s).2 = llm_log s ++ new →
  calls_during initial s = new.
Proof. intros H. unfold calls_during. by rewrite H, drop_app_length. Qed.

(** ** Properties of the pipeline *)

(** C1.  For every valid initial message (in particular one that carries an
    image), a run in which both models answer finishes and appends exactly
    two messages to the conversation: first the one named
    "Analysis Agent", then the one named "Creative Agent". *)
Theorem full_run_appends_analysis_then_creative (initial : Message)
    (s : Store) (r1 r2 : Message) :
  valid_initial initial →
  moondream (analysis_input initial s) = inr r1 →
  gemma2_2b (creative_input initial s r1) = inr r2 →
  outcome (run_cell initial s).1 = Finished ∧
  history (run_cell initial s).1 !! 0 = Some [stored_initial initial s] ∧
  ∃ a c,
    channel (run_cell initial s).2 = [stored_initial initial s] ++ [a; c] ∧
    msg_name a = Some "Analysis Agent" ∧ msg_content a = msg_content r1 ∧
    msg_name c = Some "Creative Agent" ∧ msg_content c = msg_content r2.
Proof.
  intros Hm H1 H2. rewrite (run_cell_finished initial s r1 r2) by done.
  cbn [fst snd outcome history channel]. do 2 (split; [done|]).
  by exists (stored_analysis initial s r1), (stored_creative initial s r2).
Qed.

(** C2.  The conversation is append-only and each agent invocation appends
    exactly one message.  An update returned by [agent_node] always holds
    one message.  In a run, whatever the models do, the conversation is
    recorded once after the input and once more for every invocation that
    returned (every event); the N-th such invocation turns the N-th
    recorded conversation into the next one by appending exactly the one
    message of its update, with that message's type, content and name, and
    every recorded conversation is its predecessor followed by one message.
    A model that answers is an invocation that returns: the Analyst's is
    the first event, the Creator's the second.  The record starts with the
    stored input and ends with the conversation the run leaves. *)
Theorem conversation_append_only (initial : Message) (s : Store) :
  valid_initial initial →
  (∀ state agent name s0,
     match (agent_node state agent name s0).1 with
     | inr update => length (messages update) = 1
     | inl _ => True
     end) ∧
  history (run_cell initial s).1 !! 0 = Some [stored_initial initial s] ∧
  last (history (run_cell initial s).1) =
    Some (channel (run_cell initial s).2) ∧
  length (history (run_cell initial s).1) =
    S (length (events (run_cell initial s).1)) ∧
  (∀ N ev,
     events (run_cell initial s).1 !! N = Some ev →
     ∃ name update before m,
       ev = [(name, mkState [update])] ∧
       history (run_cell initial s).1 !! N = Some before ∧
       history (run_cell initial s).1 !! S N = Some (before ++ [m]) ∧
       msg_type m = msg_type update ∧
       msg_content m = msg_content update ∧
       msg_name m = msg_name update ∧
       msg_name m = Some name) ∧
  (∀ N before after,
     history (run_cell initial s).1 !! N = Some before →
     history (run_cell initial s).1 !! S N = Some after →
     ∃ m, after = before ++ [m]) ∧
  (∀ r1,
     moondream (analysis_input initial s) = inr r1 →
     ∃ update,
       events (run_cell initial s).1 !! 0 =
         Some [("Analysis Agent", mkState [update])] ∧
       msg_content update = msg_content r1) ∧
  (∀ r1 r2,
     moondream (analysis_input initial s) = inr r1 →
     gemma2_2b (creative_input initial s r1) = inr r2 →
     ∃ update,
       events (run_cell initial s).1 !! 1 =
         Some [("Creative Agent", mkState [update])] ∧
       msg_content update = msg_content r2).
Proof.
  intros Hm. split.
  { intros state agent name s0.
    destruct (agent_node_frame state agent name s0) as (_ & _ & Hr).
    destruct (agent_node state agent name s0).1 as [e|update]; [done|].
    by destruct Hr as [result ->]. }
  destruct (moondream (analysis_input initial s)) as [e1|r1] eqn:H1.
  { rewrite (run_cell_analysis_fails initial s e1) by done.
    cbn [fst snd history events channel]. do 3 (split; [done|]).
    split; [by intros N ev|]. split; [|done].
    by intros [|N] before after. }
  destruct (gemma2_2b (creative_input initial s r1)) as [e2|r2] eqn:H2.
  { rewrite (run_cell_creative_fails initial s r1 e2) by done.
    cbn [fst snd history events channel]. do 3 (split; [done|]).
    split; [|split; [|split]].
    - intros [|N] ev; [|done]. intros [= <-].
      by exists "Analysis Agent", (analysis_message r1),
        [stored_initial initial s], (stored_analysis initial s r1).
    - intros [|[|N]] before after; [|done..].
      intros [= <-] [= <-]. by eexists.
    - intros ? [= <-]. by eexists.
    - intros ? r2 [= <-]. by rewrite H2. }
  rewrite (run_cell_finished initial s r1 r2) by done.
  cbn [fst snd history events channel]. do 3 (split; [done|]).
  split; [|split; [|split]].
  - intros [|[|N]] ev; [| |done]; intros [= <-].
    + by exists "Analysis Agent", (analysis_message r1),
        [stored_initial initial s], (stored_analysis initial s r1).
    + by exists "Creative Agent", (creative_message r2),
        [stored_initial initial s; stored_analysis initial s r1],
        (stored_creative initial s r2).
  - intros [|[|[|N]]] before after; [| |done..];
      intros [= <-] [= <-]; by eexists.
  - intros ? [= <-]. by eexists.
  - intros ? r2' [= <-]. rewrite H2. intros [= <-]. by eexists.
Qed.

(** C3.  If the model behind the Analyst stage fails, the run ends at once
    with that exception, raised during the task "Analysis Agent"; the only
    request sent is the one to the Analyst's model, so the Creator's model
    is never invoked; no event is yielded and the conversation holds the
    input only. *)
Theorem analyst_failure_aborts_run (initial : Message) (s : Store)
    (e : Exn) :
  valid_initial initial →
  moondream (analysis_input initial s) = inl e →
  outcome (run_cell initial s).1 = Raised (Some "Analysis Agent") e ∧
  calls_during initial s = [analysis_call initial s] ∧
  Forall (λ c, call_model c ≠ model creative_llm) (calls_during initial s) ∧
  events (run_cell initial s).1 = [] ∧
  output (run_cell initial s).1 = [] ∧
  history (run_cell initial s).1 = [[stored_initial initial s]] ∧
  channel (run_cell initial s).2 = [stored_initial initial s].
Proof.
  intros Hm H1.
  assert (calls_during initial s = [analysis_call initial s]) as Hcalls.
  { apply calls_during_eq.
    by rewrite (run_cell_analysis_fails initial s e). }
  rewrite Hcalls. rewrite (run_cell_analysis_fails initial s e) by done.
  cbn [fst snd outcome events output history channel].
  repeat split. by repeat constructor.
Qed.

(** C4.  The Creator's model is only ever asked once the Analyst's message
    is in the conversation: a request to it exists exactly when the Analyst's
    model answered, and its prompt is the creative instruction followed by
    the conversation recorded after the Analyst stage, which ends with the
    Analyst's message.  In the conversation a finished run leaves, the
    Analyst's message sits at a strictly smaller index than the Creator's. *)
Theorem creator_runs_on_analyst_output (initial : Message) (s : Store) :
  valid_initial initial →
  (∀ c, c ∈ calls_during initial s → call_model c = model creative_llm →
     ∃ r1 conv,
       moondream (analysis_input initial s) = inr r1 ∧
       history (run_cell initial s).1 !! 1 = Some conv ∧
       last conv = Some (stored_analysis initial s r1) ∧
       msg_content (stored_analysis initial s r1) = msg_content r1 ∧
       call_input c = SystemMessage creative_prompt :: conv) ∧
  (∀ r1, moondream (analysis_input initial s) = inr r1 →
     creative_call initial s r1 ∈ calls_during initial s) ∧
  (∀ r1 r2 i j,
     moondream (analysis_input initial s) = inr r1 →
     gemma2_2b (creative_input initial s r1) = inr r2 →
     channel (run_cell initial s).2 !! i =
       Some (stored_analysis initial s r1) →
     channel (run_cell initial s).2 !! j =
       Some (stored_creative initial s r2) →
     (i < j)%nat).
Proof.
  intros Hm.
  assert (∀ r1 n, (draws_after_input initial s ≤ n)%nat →
            stored_initial initial s ≠
              with_id r1 (uuid_gen n)) as Hinit.
  { intros r1 n Hn E.
    apply (stored_initial_fresh initial s n Hm Hn). by rewrite E. }
  destruct (moondream (analysis_input initial s)) as [e1|r1] eqn:H1.
  { assert (calls_during initial s = [analysis_call initial s]) as ->.
    { apply calls_during_eq.
      by rewrite (run_cell_analysis_fails initial s e1). }
    split; [|done]. intros c ->%list_elem_of_singleton. by cbn. }
  destruct (gemma2_2b (creative_input initial s r1)) as [e2|r2] eqn:H2.
  { assert (calls_during initial s =
              [analysis_call initial s; creative_call initial s r1]) as ->.
    { apply calls_during_eq.
      by rewrite (run_cell_creative_fails initial s r1 e2). }
    rewrite (run_cell_creative_fails initial s r1 e2) by done.
    cbn [fst snd history channel]. split; [|split].
    - intros c Hc Hmodel. exists r1, [stored_initial initial s;
                                       stored_analysis initial s r1].
      apply elem_of_cons in Hc as [-> | ->%list_elem_of_singleton];
        [by cbn in Hmodel|done].
    - intros ? [= <-]. set_solver.
    - intros ? r2 ? ? [= <-]. by rewrite H2. }
  assert (calls_during initial s =
            [analysis_call initial s; creative_call initial s r1]) as ->.
  { apply calls_during_eq.
    by rewrite (run_cell_finished initial s r1 r2). }
  rewrite (run_cell_finished initial s r1 r2) by done.
  cbn [fst snd history channel]. split; [|split].
  - intros c Hc Hmodel. exists r1, [stored_initial initial s;
                                     stored_analysis initial s r1].
    apply elem_of_cons in Hc as [-> | ->%list_elem_of_singleton];
      [by cbn in Hmodel|done].
  - intros ? [= <-]. set_solver.
  - intros ? r2' i j [= <-]. rewrite H2. intros [= <-] Hi Hj.
    assert (stored_analysis initial s r1 ≠ stored_creative initial s r2)
      as Hac.
    { unfold stored_analysis, stored_creative. by intros [=]. }
    destruct i as [|[|[|i]]]; cbn in Hi; [| |by injection Hi|done].
    { exfalso. injection Hi as Hi.
      by eapply (Hinit (analysis_message r1)). }
    destruct j as [|[|[|j]]]; cbn in Hj; [|by injection Hj|lia|done].
    exfalso. injection Hj as Hj.
    eapply (Hinit (creative_message r2)); [|done]. lia.
Qed.

(** C6.  For every conversation, an agent made by [create_agent] from a
    model and a system instruction (a template with no replacement field)
    sends its model the instruction followed by that conversation, and
    [agent_node] wraps the content of the answer, with the agent's name,
    into the one new message it returns; a failure of the model is passed
    on unchanged. *)
Theorem respond_prepends_instruction_and_wraps (state : State)
    (l : ChatOllama) (system_prompt name : string) (s : Store) :
  brace_free system_prompt = true →
  llm_log (agent_node state (create_agent l system_prompt) name s).2 =
    llm_log s ++
      [mkCall (model l) (SystemMessage system_prompt :: messages state)] ∧
  (agent_node state (create_agent l system_prompt) name s).1 =
    match generate l (SystemMessage system_prompt :: messages state) with
    | inl e => inl e
    | inr result =>
        inr (mkState [HumanMessage (msg_content result) (Some name)])
    end.
Proof.
  intros Hp. by rewrite agent_node_create_agent.
Qed.

(** C7.  An agent invocation does not change the conversation: after
    [agent_node], whatever the agent and whether or not its model answers,
    the channel holds the messages it held before, and what is returned is
    one newly built message. *)
Theorem respond_leaves_conversation_unchanged (state : State)
    (agent : Agent) (name : string) (s : Store) :
  channel (agent_node state agent name s).2 = channel s ∧
  (messages state = channel s →
   channel (agent_node state agent name s).2 = messages state) ∧
  match (agent_node state agent name s).1 with
  | inr update =>
      ∃ result,
        update = mkState [HumanMessage (msg_content result) (Some name)]
  | inl _ => True
  end.
Proof.
  destruct (agent_node_frame state agent name s) as (Hc & _ & Hr).
  repeat split; [done| |done]. intros ->. done.
Qed.

(** C8.  With the Analyst's model stubbed to answer
    "a small hedgehog on grass" and the Creator's model stubbed to answer
    "Quills like stars...", running the last cell on the data-URI message
    of any image prints exactly the two entries
    ("Analysis Agent", "a small hedgehog on grass") and
    ("Creative Agent", "Quills like stars..."), in that order. *)
Theorem stubbed_run_output (image : list byte) (s : Store) :
  stubbed moondream "a small hedgehog on grass" →
  stubbed gemma2_2b "Quills like stars..." →
  outcome (run_cell (message image) s).1 = Finished ∧
  output (run_cell (message image) s).1 =
    [ (Some "Analysis Agent", Text "a small hedgehog on grass");
      (Some "Creative Agent", Text "Quills like stars...") ].
Proof.
  intros HA HC.
  assert (valid_initial (message image)) as Hm.
  { split; [done|]. by intros i n. }
  by rewrite (run_cell_finished (message image) s
                (AIMessage "a small hedgehog on grass")
                (AIMessage "Quills like stars...")).
Qed.

(** C9.  Both agents are built with the same system instruction,
    [creative_prompt]: [analysis_prompt] is a different text and is the
    template of neither agent; the two nodes differ in the model and the
    name only, and the Analyst's model is prompted with the creative
    instruction. *)
Theorem both_agents_use_creative_prompt :
  prompt analysis_agent =
    [role_template system creative_prompt; MessagesPlaceholder "messages"] ∧
  prompt creative_agent = prompt analysis_agent ∧
  analysis_prompt ≠ creative_prompt ∧
  (role_template system analysis_prompt ∉ prompt analysis_agent) ∧
  (role_template system analysis_prompt ∉ prompt creative_agent) ∧
  analysis_node =
    (λ state, agent_node state
                (mkAgent (prompt creative_agent) analysis_llm)
                "Analysis Agent") ∧
  creative_node =
    (λ state, agent_node state
                (mkAgent (prompt creative_agent) creative_llm)
                "Creative Agent") ∧
  ∀ state s,
    llm_log (analysis_node state s).2 =
      llm_log s ++
        [mkCall "moondream" (SystemMessage creative_prompt :: messages state)].
Proof.
  assert (analysis_prompt ≠ creative_prompt) as Hne by done.
  assert (role_template system analysis_prompt ∉ prompt creative_agent)
    as Hnot.
  { intros H. cbn in H. apply elem_of_cons in H as [H | H].
    - apply Hne. congruence.
    - by apply list_elem_of_singleton in H. }
  repeat split; try done.
  intros state s. unfold analysis_node, analysis_agent.
    by rewrite agent_node_create_agent
      by apply creative_prompt_brace_free.
Qed.

(** C10.  Every message an agent hands to the conversation is a
    [HumanMessage]: its type is [human] although a model wrote it, and the
    agent shows in the [name] field only.  In a run, whatever the models
    do, each message appended after the input has type [human] and carries
    the name of its node. *)
Theorem agent_messages_are_human (initial : Message) (s : Store) :
  valid_initial initial →
  (∀ state agent name s0,
     match (agent_node state agent name s0).1 with
     | inr update =>
         Forall (λ m, msg_type m = human ∧ msg_name m = Some name)
           (messages update)
     | inl _ => True
     end) ∧
  ∃ appended,
    channel (run_cell initial s).2 = stored_initial initial s :: appended ∧
    Forall (λ m, msg_type m = human ∧
                 (msg_name m = Some "Analysis Agent" ∨
                  msg_name m = Some "Creative Agent")) appended.
Proof.
  intros Hm. split.
  { intros state agent name s0.
    destruct (agent_node_frame state agent name s0) as (_ & _ & Hr).
    destruct (agent_node state agent name s0).1 as [e|update]; [done|].
    destruct Hr as [result ->]. by repeat constructor. }
  destruct (moondream (analysis_input initial s)) as [e1|r1] eqn:H1.
  { rewrite (run_cell_analysis_fails initial s e1) by done. by exists []. }
  destruct (gemma2_2b (creative_input initial s r1)) as [e2|r2] eqn:H2.
  { rewrite (run_cell_creative_fails initial s r1 e2) by done.
    exists [stored_analysis initial s r1]. split; [done|].
    constructor; [|done]. split; [done|by left]. }
  rewrite (run_cell_finished initial s r1 r2) by done.
  exists [stored_analysis initial s r1; stored_creative initial s r2].
  split; [done|].
  constructor; [split; [done|by left]|].
  constructor; [split; [done|by right]|done].
Qed.

(** ** Further properties of the pipeline *)

(** *** The reducer on a whole input *)

Lemma mapM_assign_id_input (input : list Message) (s : Store) :
  mapM assign_id input s =
    (inr (stored_input input (uuid_draws s)),
     mkStore (channel s) (draws_after input (uuid_draws s)) (llm_log s)).
Proof.
  revert s. induction input as [|m input IH]; intros s.
  { by destruct s. }
  rewrite mapM_cons, bind_eq. cbn [stored_input draws_after].
  destruct (msg_id m) as [i|] eqn:E.
  - rewrite (assign_id_Some m i) by done. by rewrite bind_eq, IH.
  - rewrite assign_id_None by done. by rewrite bind_eq, IH.
Qed.

Lemma merge_loop_empty_index (right merged : list Message) :
  Forall (λ m, msg_type m ≠ remove) right →
  merge_loop ∅ right merged ∅ = inr (merged ++ right, ∅).
Proof.
  intros H. revert merged.
  induction H as [|m right Hm _ IH]; intros merged.
  { cbn. by rewrite app_nil_r. }
  cbn [merge_loop].
  replace (msg_id m ≫= (λ k, (∅ : gmap string nat) !! k)) with (@None nat)
    by (destruct (msg_id m); cbn; by rewrite ?lookup_empty).
  destruct (decide (msg_type m = remove)) as [|_]; [done|].
  by rewrite IH, <- app_assoc.
Qed.

Lemma stored_input_type (input : list Message) (n : nat) :
  Forall (λ m, msg_type m ≠ remove) input →
  Forall (λ m, msg_type m ≠ remove) (stored_input input n).
Proof.
  intros H. revert n. induction H as [|m input Hm _ IH]; intros n; [done|].
  cbn. destruct (msg_id m); constructor; auto.
Qed.

Lemma stored_input_has_id (input : list Message) (n : nat) :
  Forall (λ m, is_Some (msg_id m)) (stored_input input n).
Proof.
  revert n. induction input as [|m input IH]; intros n; [done|].
  cbn. destruct (msg_id m) eqn:E; constructor; auto.
Qed.

Lemma draws_after_le (input : list Message) (n : nat) :
  (n ≤ draws_after input n)%nat.
Proof.
  revert n. induction input as [|m input IH]; intros n; [done|].
  cbn. destruct (msg_id m); [done|]. specialize (IH (S n)). lia.
Qed.

(** No draw made after the input was stored returns an id of the input. *)
Lemma stored_input_fresh (input : list Message) (n k : nat) :
  Forall valid_initial input → (draws_after input n ≤ k)%nat →
  Forall (λ m, msg_id m ≠ Some (uuid_gen k)) (stored_input input n).
Proof.
  intros H. revert n.
  induction H as [|m input [_ Hid] _ IH]; intros n Hk; [done|].
  cbn in *. destruct (msg_id m) as [i|] eqn:E.
  - constructor; [|by apply IH]. rewrite E. intros [= ->]. by eapply Hid.
  - constructor; [|by apply IH]. rewrite msg_id_with_id.
    intros [= H%uuid_gen_inj]. pose proof (draws_after_le input (S n)). lia.
Qed.

Lemma add_messages_input (input : list Message) (s : Store) :
  Forall (λ m, msg_type m ≠ remove) input →
  add_messages [] input s =
    (inr (stored_input input (uuid_draws s)),
     mkStore (channel s) (draws_after input (uuid_draws s)) (llm_log s)).
Proof.
  intros H. unfold add_messages.
  rewrite bind_eq. cbn [mapM ret]. rewrite bind_eq, mapM_assign_id_input.
  cbn [index_by_id].
  rewrite merge_loop_empty_index by by apply stored_input_type.
  cbn [app]. by rewrite filter_kept_empty.
Qed.

(** *** A superstep of either node on any stored conversation *)

Lemma analysis_superstep_any (conv : list Message) (d : nat)
    (log : list LlmCall) (r1 : Message) (r : Run Printed) :
  Forall (λ x, is_Some (msg_id x)) conv →
  Forall (λ x, msg_id x ≠ Some (uuid_gen d)) conv →
  moondream (SystemMessage creative_prompt :: conv) = inr r1 →
  superstep graph print_event ["Analysis Agent"] r (mkStore conv d log) =
    (mkRun (events r ++ [[("Analysis Agent", mkState [analysis_message r1])]])
       (output r ++ [(Some "Analysis Agent", msg_content r1)])
       (history r ++ [conv ++ [with_id (analysis_message r1) (uuid_gen d)]])
       Finished,
     mkStore (conv ++ [with_id (analysis_message r1) (uuid_gen d)]) (S d)
       (log ++ [mkCall "moondream" (SystemMessage creative_prompt :: conv)])).
Proof.
  intros Hids Hfresh H1.
  rewrite (superstep_appends graph _ (analysis_message r1)
             (conv ++ [with_id (analysis_message r1) (uuid_gen d)]) _ _
             (mkStore conv d
                (log ++
                 [mkCall "moondream" (SystemMessage creative_prompt :: conv)]))
             (mkStore conv (S d)
                (log ++
                 [mkCall "moondream" (SystemMessage creative_prompt :: conv)])));
    [reflexivity| |].
  - rewrite run_task_analysis. unfold analysis_agent.
    rewrite agent_node_create_agent by apply creative_prompt_brace_free.
    cbn [messages channel generate analysis_llm model]. by rewrite H1.
  - cbn [channel]. by rewrite add_messages_append.
Qed.

Lemma creative_superstep_any (conv : list Message) (d : nat)
    (log : list LlmCall) (r2 : Message) (r : Run Printed) :
  Forall (λ x, is_Some (msg_id x)) conv →
  Forall (λ x, msg_id x ≠ Some (uuid_gen d)) conv →
  gemma2_2b (SystemMessage creative_prompt :: conv) = inr r2 →
  superstep graph print_event ["Creative Agent"] r (mkStore conv d log) =
    (mkRun (events r ++ [[("Creative Agent", mkState [creative_message r2])]])
       (output r ++ [(Some "Creative Agent", msg_content r2)])
       (history r ++ [conv ++ [with_id (creative_message r2) (uuid_gen d)]])
       Finished,
     mkStore (conv ++ [with_id (creative_message r2) (uuid_gen d)]) (S d)
       (log ++ [mkCall "gemma2:2b" (SystemMessage creative_prompt :: conv)])).
Proof.
  intros Hids Hfresh H2.
  rewrite (superstep_appends graph _ (creative_message r2)
             (conv ++ [with_id (creative_message r2) (uuid_gen d)]) _ _
             (mkStore conv d
                (log ++
                 [mkCall "gemma2:2b" (SystemMessage creative_prompt :: conv)]))
             (mkStore conv (S d)
                (log ++
                 [mkCall "gemma2:2b" (SystemMessage creative_prompt :: conv)])));
    [reflexivity| |].
  - rewrite run_task_creative. unfold creative_agent.
    rewrite agent_node_create_agent by apply creative_prompt_brace_free.
    cbn [messages channel generate creative_llm model]. by rewrite H2.
  - cbn [channel]. by rewrite add_messages_append.
Qed.

(** X4.  [graph.stream] on any input conversation, the empty one included,
    whose messages are valid and bring pairwise distinct ids (or none):
    when both models answer, the run finishes, prints the two entries, and
    leaves the stored input followed by the Analyst's and then the
    Creator's message; the Analyst's model is sent the instruction and the
    whole input, the Creator's model the same plus the Analyst's message. *)
Theorem stream_any_input (input : list Message) (s : Store)
    (r1 r2 : Message) :
  Forall valid_initial input →
  NoDup (omap msg_id input) →
  moondream
    (SystemMessage creative_prompt :: stored_input input (uuid_draws s)) =
    inr r1 →
  gemma2_2b
    (SystemMessage creative_prompt ::
       stored_input input (uuid_draws s) ++
       [with_id (analysis_message r1)
          (uuid_gen (draws_after input (uuid_draws s)))]) = inr r2 →
  outcome (stream graph (mkState input) print_event s).1 = Finished ∧
  output (stream graph (mkState input) print_event s).1 =
    [ (Some "Analysis Agent", msg_content r1);
      (Some "Creative Agent", msg_content r2) ] ∧
  channel (stream graph (mkState input) print_event s).2 =
    stored_input input (uuid_draws s) ++
    [ with_id (analysis_message r1)
        (uuid_gen (draws_after input (uuid_draws s)));
      with_id (creative_message r2)
        (uuid_gen (S (draws_after input (uuid_draws s)))) ] ∧
  llm_log (stream graph (mkState input) print_event s).2 =
    llm_log s ++
    [ mkCall "moondream"
        (SystemMessage creative_prompt :: stored_input input (uuid_draws s));
      mkCall "gemma2:2b"
        (SystemMessage creative_prompt ::
           stored_input input (uuid_draws s) ++
           [with_id (analysis_message r1)
              (uuid_gen (draws_after input (uuid_draws s)))]) ].
Proof.
  intros Hin _ H1 H2.
  set (conv := stored_input input (uuid_draws s)) in *.
  set (d := draws_after input (uuid_draws s)) in *.
  assert (Forall (λ m, msg_type m ≠ remove) input) as Hty.
  { eapply Forall_impl; [exact Hin|]. by intros m [? _]. }
  assert (stream graph (mkState input) print_event s =
    (mkRun [[("Analysis Agent", mkState [analysis_message r1])];
            [("Creative Agent", mkState [creative_message r2])]]
       [(Some "Analysis Agent", msg_content r1);
        (Some "Creative Agent", msg_content r2)]
       [conv; conv ++ [with_id (analysis_message r1) (uuid_gen d)];
        (conv ++ [with_id (analysis_message r1) (uuid_gen d)]) ++
          [with_id (creative_message r2) (uuid_gen (S d))]]
       Finished,
     mkStore
       ((conv ++ [with_id (analysis_message r1) (uuid_gen d)]) ++
          [with_id (creative_message r2) (uuid_gen (S d))])
       (S (S d))
       ((llm_log s ++
           [mkCall "moondream" (SystemMessage creative_prompt :: conv)]) ++
        [mkCall "gemma2:2b"
           (SystemMessage creative_prompt ::
              conv ++ [with_id (analysis_message r1) (uuid_gen d)])])))
    as ->.
  { unfold stream. cbn [messages].
    rewrite bind_eq, add_messages_input by done.
    cbn [set_channel channel uuid_draws llm_log]. fold conv d.
    rewrite next_tasks_START. change recursion_limit with (S (S 23)).
    rewrite pregel_loop_S, (analysis_superstep_any conv d _ r1);
      [|apply stored_input_has_id|by apply stored_input_fresh|done].
    cbn [outcome]. rewrite next_tasks_analysis, pregel_loop_S.
    rewrite (creative_superstep_any _ (S d) _ r2); [| | |done].
    - cbn [outcome]. by rewrite next_tasks_creative, pregel_loop_nil.
    - apply Forall_app. split; [apply stored_input_has_id|].
      repeat constructor. rewrite msg_id_with_id. eauto.
    - apply Forall_app. split.
      + apply stored_input_fresh; [done|]. unfold d. lia.
      + repeat constructor. rewrite msg_id_with_id.
        intros [= H%uuid_gen_inj]. lia. }
  cbn [fst snd outcome output channel llm_log].
  by rewrite <- !app_assoc.
Qed.

(** *** How a run can end *)

(** X1.  A run on a valid initial message ends in one of three ways only:
    it finishes, both models having answered, or it raises exactly the
    exception of the Analyst's model during "Analysis Agent", or exactly the
    exception of the Creator's model during "Creative Agent".  The graph
    machinery itself never fails: no recursion limit, missing node or empty
    update. *)
Theorem run_fails_only_with_a_model (initial : Message) (s : Store) :
  valid_initial initial →
  match outcome (run_cell initial s).1 with
  | Finished =>
      ∃ r1 r2,
        moondream (analysis_input initial s) = inr r1 ∧
        gemma2_2b (creative_input initial s r1) = inr r2
  | Raised during e =>
      (during = Some "Analysis Agent" ∧
       moondream (analysis_input initial s) = inl e) ∨
      (during = Some "Creative Agent" ∧
       ∃ r1, moondream (analysis_input initial s) = inr r1 ∧
             gemma2_2b (creative_input initial s r1) = inl e)
  end.
Proof.
  intros Hm.
  destruct (moondream (analysis_input initial s)) as [e1|r1] eqn:H1.
  { rewrite (run_cell_analysis_fails initial s e1) by done. by left. }
  destruct (gemma2_2b (creative_input initial s r1)) as [e2|r2] eqn:H2.
  { rewrite (run_cell_creative_fails initial s r1 e2) by done.
    right. split; [done|]. by exists r1. }
  rewrite (run_cell_finished initial s r1 r2) by done. by exists r1, r2.
Qed.

(** X2.  If the Creator's model fails after the Analyst's has answered, the
    run raises that exception during "Creative Agent"; the Analyst's entry
    has been printed and is the only one, the only event yielded is the
    Analyst's update (one message of type [human], named "Analysis Agent",
    with the answer's content), and the conversation keeps the input and the
    Analyst's message. *)
Theorem creator_failure_keeps_analyst_output (initial : Message)
    (s : Store) (r1 : Message) (e : Exn) :
  valid_initial initial →
  moondream (analysis_input initial s) = inr r1 →
  gemma2_2b (creative_input initial s r1) = inl e →
  outcome (run_cell initial s).1 = Raised (Some "Creative Agent") e ∧
  output (run_cell initial s).1 = [(Some "Analysis Agent", msg_content r1)] ∧
  (∃ m,
     events (run_cell initial s).1 = [[("Analysis Agent", mkState [m])]] ∧
     msg_type m = human ∧ msg_name m = Some "Analysis Agent" ∧
     msg_content m = msg_content r1) ∧
  channel (run_cell initial s).2 =
    [stored_initial initial s; stored_analysis initial s r1].
Proof.
  intros Hm H1 H2.
  rewrite (run_cell_creative_fails initial s r1 e) by done.
  cbn [fst snd outcome output events channel]. do 2 (split; [done|]).
  split; [|done]. by exists (analysis_message r1).
Qed.

Lemma calls_during_cases (initial : Message) (s : Store) :
  valid_initial initial →
  match moondream (analysis_input initial s) with
  | inl _ => calls_during initial s = [analysis_call initial s]
  | inr r1 =>
      calls_during initial s =
        [analysis_call initial s; creative_call initial s r1]
  end.
Proof.
  intros Hm.
  destruct (moondream (analysis_input initial s)) as [e1|r1] eqn:H1.
  { apply calls_during_eq.
    by rewrite (run_cell_analysis_fails initial s e1). }
  apply calls_during_eq.
  destruct (gemma2_2b (creative_input initial s r1)) as [e2|r2] eqn:H2.
  - by rewrite (run_cell_creative_fails initial s r1 e2).
  - by rewrite (run_cell_finished initial s r1 r2).
Qed.

(** X3.  During a run each model is sent at most one request: the first
    request always goes to the Analyst's model, and a second one, to the
    Creator's model, is sent exactly when the Analyst's model answered. *)
Theorem each_model_is_asked_at_most_once (initial : Message) (s : Store) :
  valid_initial initial →
  match moondream (analysis_input initial s) with
  | inl _ => calls_during initial s = [analysis_call initial s]
  | inr r1 =>
      calls_during initial s =
        [analysis_call initial s; creative_call initial s r1]
  end.
Proof. apply calls_during_cases. Qed.

Ltac split_foralls :=
  repeat match goal with
         | |- Forall _ [] => apply Forall_nil
         | |- Forall _ (_ :: _) => apply Forall_cons; split
         | |- _ ∧ _ => split
         end.

(** X5.  At every stage of a run, every message of the conversation has an
    id and no two messages share one. *)
Theorem conversation_ids_distinct (initial : Message) (s : Store) :
  valid_initial initial →
  Forall (λ conv, Forall (λ m, is_Some (msg_id m)) conv ∧
                  NoDup (msg_id <$> conv))
    (history (run_cell initial s).1).
Proof.
  intros Hm.
  pose proof (stored_initial_has_id initial s) as Hid0.
  assert (∀ n, (draws_after_input initial s ≤ n)%nat →
            msg_id (stored_initial initial s) ≠ Some (uuid_gen n)) as Hfresh.
  { intros n Hn. by apply stored_initial_fresh. }
  assert (NoDup (msg_id <$> [stored_initial initial s])) as Hnd1.
  { apply NoDup_singleton. }
  assert (∀ r1, NoDup (msg_id <$> [stored_initial initial s;
                                   stored_analysis initial s r1])) as Hnd2.
  { intros r1. cbn. apply NoDup_cons. split; [|apply NoDup_singleton].
    intros H%list_elem_of_singleton. by eapply Hfresh. }
  assert (∀ r1 r2, NoDup (msg_id <$> [stored_initial initial s;
                                      stored_analysis initial s r1;
                                      stored_creative initial s r2]))
    as Hnd3.
  { intros r1 r2. cbn. apply NoDup_cons. split.
    - intros [H|H%list_elem_of_singleton]%elem_of_cons.
      + by eapply Hfresh.
      + eapply (Hfresh (S (draws_after_input initial s))); [lia|done].
    - apply NoDup_cons. split; [|apply NoDup_singleton].
      intros [= H%uuid_gen_inj]%list_elem_of_singleton. lia. }
  assert (∀ r1, is_Some (msg_id (stored_analysis initial s r1))) as Hid1
    by (intros; unfold stored_analysis; rewrite msg_id_with_id; eauto).
  assert (∀ r2, is_Some (msg_id (stored_creative initial s r2))) as Hid2
    by (intros; unfold stored_creative; rewrite msg_id_with_id; eauto).
  destruct (moondream (analysis_input initial s)) as [e1|r1] eqn:H1.
  { rewrite (run_cell_analysis_fails initial s e1) by done.
    cbn [fst history]. split_foralls; auto. }
  destruct (gemma2_2b (creative_input initial s r1)) as [e2|r2] eqn:H2.
  { rewrite (run_cell_creative_fails initial s r1 e2) by done.
    cbn [fst history]. split_foralls; auto. }
  rewrite (run_cell_finished initial s r1 r2) by done.
  cbn [fst history]. split_foralls; auto.
Qed.

(** X7.  One call of [agent_node], whatever the agent, sends at most one
    request, and only to the agent's own model; when it returns an update,
    exactly one request was sent. *)
Theorem agent_node_sends_at_most_one_request (state : State) (agent : Agent)
    (name : string) (s : Store) :
  match (agent_node state agent name s).1 with
  | inr _ =>
      ∃ input,
        llm_log (agent_node state agent name s).2 =
          llm_log s ++ [mkCall (model (llm agent)) input]
  | inl _ =>
      llm_log (agent_node state agent name s).2 = llm_log s ∨
      ∃ input,
        llm_log (agent_node state agent name s).2 =
          llm_log s ++ [mkCall (model (llm agent)) input]
  end.
Proof.
  unfold agent_node, invoke. rewrite !bind_eq.
  pose proof (format_messages_store (prompt agent) (messages state) s) as H.
  destruct (format_messages _ _ s) as [[e|prompt_value] s1];
    cbn [snd] in H; subst s1; [by left|].
  unfold llm_invoke.
  destruct (generate (llm agent) prompt_value) as [e|result]; cbn; eauto.
Qed.

(** X11.  Every request sent during a run, to the Creator's model as well
    as to the Analyst's, starts with the creative instruction followed by
    the initial message, whose content is the one the caller passed in: the
    Creator's model is sent the image too, not only the Analyst's text. *)
Theorem every_request_carries_the_input (initial : Message) (s : Store) :
  valid_initial initial →
  msg_content (stored_initial initial s) = msg_content initial ∧
  calls_during initial s ≠ [] ∧
  ∀ c, c ∈ calls_during initial s →
    ∃ rest,
      call_input c =
        SystemMessage creative_prompt :: stored_initial initial s :: rest.
Proof.
  intros Hm. split.
  { unfold stored_initial. by destruct (msg_id initial). }
  pose proof (calls_during_cases initial s Hm) as H.
  destruct (moondream (analysis_input initial s)) as [e1|r1]; rewrite H.
  - split; [done|]. intros c ->%list_elem_of_singleton. by eexists.
  - split; [done|].
    intros c [-> | ->%list_elem_of_singleton]%elem_of_cons; by eexists.
Qed.

(** X13.  In every run on a valid initial message the events, the printed
    entries and the recorded conversations stay in step: each event carries
    the update of one node, every event is printed as one entry, there is one
    recorded conversation more than events, and the nodes of the events are,
    in order, a prefix of "Analysis Agent", "Creative Agent". *)
Theorem events_and_output_in_step (initial : Message) (s : Store) :
  valid_initial initial →
  Forall (λ ev : Event, length ev = 1) (events (run_cell initial s).1) ∧
  length (output (run_cell initial s).1) =
    length (events (run_cell initial s).1) ∧
  length (history (run_cell initial s).1) =
    S (length (events (run_cell initial s).1)) ∧
  (concat (events (run_cell initial s).1)).*1
    `prefix_of` ["Analysis Agent"; "Creative Agent"].
Proof.
  intros Hm.
  destruct (moondream (analysis_input initial s)) as [e1|r1] eqn:H1.
  { rewrite (run_cell_analysis_fails initial s e1) by done.
    cbn. repeat split; [done|]. by eexists. }
  destruct (gemma2_2b (creative_input initial s r1)) as [e2|r2] eqn:H2.
  { rewrite (run_cell_creative_fails initial s r1 e2) by done.
    cbn. repeat split; [by repeat constructor|]. by exists ["Creative Agent"]. }
  rewrite (run_cell_finished initial s r1 r2) by done.
  cbn. repeat split; [by repeat constructor|]. by exists [].
Qed.

End Notebook.

(** ** Round trip of the image *)

Lemma N_forall_lt (P : N → bool) (k : nat) :
  forallb P (map N.of_nat (seq 0 k)) = true →
  ∀ n, (n < N.of_nat k)%N → P n = true.
Proof.
  intros H n Hn. rewrite forallb_forall in H. apply H.
  apply in_map_iff. exists (N.to_nat n). split; [lia|].
  apply in_seq. lia.
Qed.

Lemma b64_index_char (n : N) :
  (n < 64)%N →
  b64_index (b64_char n) = Some n ∧
  Ascii.eqb (b64_char n) BASE64_PAD = false.
Proof.
  intros Hn.
  assert (sextet_ok n = true) as H.
  { apply (N_forall_lt sextet_ok 64); [by vm_compute|done]. }
  unfold sextet_ok in H. apply andb_true_iff in H as [H1 H2].
  destruct (b64_index (b64_char n)) as [m|]; [|done].
  apply N.eqb_eq in H1 as ->. by apply negb_true_iff in H2.
Qed.

Lemma byte_ok_all (a : N) : (a < 256)%N → byte_ok a = true.
Proof. apply (N_forall_lt byte_ok 256). by vm_compute. Qed.

Lemma second_ok_all (a b : N) :
  (a < 256)%N → (b < 256)%N → second_ok a b = true.
Proof.
  intros Ha. revert b.
  apply (N_forall_lt (λ b, second_ok a b) 256).
  revert a Ha.
  apply (N_forall_lt
           (λ a, forallb (λ b, second_ok a b) (map N.of_nat (seq 0 256)))
           256).
  by vm_compute.
Qed.

Lemma third_ok_all (b c : N) :
  (b < 256)%N → (c < 256)%N → third_ok b c = true.
Proof.
  intros Hb. revert c.
  apply (N_forall_lt (λ c, third_ok b c) 256).
  revert b Hb.
  apply (N_forall_lt
           (λ b, forallb (λ c, third_ok b c) (map N.of_nat (seq 0 256)))
           256).
  by vm_compute.
Qed.

Lemma to_N_lt (x : byte) : (Byte.to_N x < 256)%N.
Proof. pose proof (Byte.to_N_bounded x). lia. Qed.

Ltac split_ok H :=
  repeat match type of H with
         | (_ && _ = true) =>
             let H' := fresh H in apply andb_true_iff in H as [H H']
         end;
  repeat match goal with
         | E : N.eqb _ _ = true |- _ => apply N.eqb_eq in E
         | E : N.ltb _ _ = true |- _ => apply N.ltb_lt in E
         end.

Lemma list_ind3 {A} (P : list A → Prop) :
  P [] → (∀ x, P [x]) → (∀ x y, P [x; y]) →
  (∀ x y z l, P l → P (x :: y :: z :: l)) →
  ∀ l, P l.
Proof.
  intros H0 H1 H2 H3 l.
  cut (P l ∧ (∀ x, P (x :: l)) ∧ (∀ x y, P (x :: y :: l))); [tauto|].
  induction l as [|a l (IH0 & IH1 & IH2)]; [by auto|].
  repeat split; auto.
Qed.

Lemma decode_one (x : byte) : a2b_base64 (b2a_base64 [x]) = Some [x].
Proof.
  pose proof (byte_ok_all _ (to_N_lt x)) as Hx.
  unfold byte_ok in Hx. split_ok Hx.
  cbn [b2a_base64 a2b_base64].
  destruct (b64_index_char (N.shiftr (Byte.to_N x) 2)) as [-> _]; [done|].
  destruct (b64_index_char (N.shiftl (N.land (Byte.to_N x) 3) 4))
    as [-> _]; [done|].
  cbn [mbind option_bind].
  replace (N.shiftr (N.shiftl (N.land (Byte.to_N x) 3) 4) 4)
    with (N.land (Byte.to_N x) 3) by done.
  replace (N.lor _ _) with (Byte.to_N x) by done.
  by rewrite Byte.of_to_N.
Qed.

Lemma decode_two (x y : byte) :
  a2b_base64 (b2a_base64 [x; y]) = Some [x; y].
Proof.
  pose proof (byte_ok_all _ (to_N_lt x)) as Hx.
  pose proof (byte_ok_all _ (to_N_lt y)) as Hy.
  pose proof (second_ok_all _ _ (to_N_lt x) (to_N_lt y)) as Hxy.
  unfold byte_ok in Hx, Hy. unfold second_ok in Hxy. cbn zeta in Hxy.
  split_ok Hx. split_ok Hy. split_ok Hxy.
  cbn [b2a_base64 a2b_base64].
  destruct (b64_index_char (N.shiftr (Byte.to_N x) 2)) as [-> _]; [done|].
  destruct (b64_index_char
              (N.lor (N.shiftl (N.land (Byte.to_N x) 3) 4)
                 (N.shiftr (Byte.to_N y) 4))) as [-> _]; [done|].
  destruct (b64_index_char (N.shiftl (N.land (Byte.to_N y) 15) 2))
    as [-> ->]; [done|].
  cbn [mbind option_bind].
  repeat match goal with E : _ = _ |- _ => rewrite E end.
  rewrite !Byte.of_to_N. by cbn.
Qed.

Lemma decode_three (x y z : byte) (rest : list byte) :
  a2b_base64 (b2a_base64 rest) = Some rest →
  a2b_base64 (b2a_base64 (x :: y :: z :: rest)) = Some (x :: y :: z :: rest).
Proof.
  intros IH.
  pose proof (byte_ok_all _ (to_N_lt x)) as Hx.
  pose proof (byte_ok_all _ (to_N_lt y)) as Hy.
  pose proof (byte_ok_all _ (to_N_lt z)) as Hz.
  pose proof (second_ok_all _ _ (to_N_lt x) (to_N_lt y)) as Hxy.
  pose proof (third_ok_all _ _ (to_N_lt y) (to_N_lt z)) as Hyz.
  unfold byte_ok in Hx, Hy, Hz. unfold second_ok in Hxy.
  unfold third_ok in Hyz. cbn zeta in Hxy, Hyz.
  split_ok Hx. split_ok Hy. split_ok Hz. split_ok Hxy. split_ok Hyz.
  cbn [b2a_base64 a2b_base64].
  destruct (b64_index_char (N.shiftr (Byte.to_N x) 2)) as [-> _]; [done|].
  destruct (b64_index_char
              (N.lor (N.shiftl (N.land (Byte.to_N x) 3) 4)
                 (N.shiftr (Byte.to_N y) 4))) as [-> _]; [done|].
  destruct (b64_index_char
              (N.lor (N.shiftl (N.land (Byte.to_N y) 15) 2)
                 (N.shiftr (Byte.to_N z) 6))) as [-> _]; [done|].
  destruct (b64_index_char (N.land (Byte.to_N z) 63)) as [-> ->]; [done|].
  cbn [mbind option_bind].
  repeat match goal with E : _ = _ |- _ => rewrite E end.
  rewrite !Byte.of_to_N. by cbn.
Qed.

Lemma a2b_b2a_base64 (data : list byte) :
  a2b_base64 (b2a_base64 data) = Some data.
Proof.
  induction data as [|x|x y|x y z rest IH] using list_ind3.
  - done.
  - apply decode_one.
  - apply decode_two.
  - by apply decode_three.
Qed.

Lemma b64decode_b64encode (data : list byte) :
  b64decode (b64encode data) = Some data.
Proof.
  unfold b64decode, b64encode.
  rewrite String.list_ascii_of_string_of_list_ascii.
  apply a2b_b2a_base64.
Qed.

Lemma parse_data_url_data_url (encoded_string : string) :
  parse_data_url (data_url encoded_string) =
    Some ("image/jpeg", encoded_string).
Proof. reflexivity. Qed.

Lemma data_url_round_trip (data : list byte) :
  decode_data_url (data_url (b64encode data)) = Some ("image/jpeg", data).
Proof.
  unfold decode_data_url.
  by rewrite parse_data_url_data_url, b64decode_b64encode.
Qed.

(** C5.  For every byte sequence read from the image file, the URL the
    notebook puts into its message has the form
    [data:image/jpeg;base64,<payload>], and reading it back (media type,
    then the base64 payload) returns exactly the bytes that were read. *)
Theorem image_data_uri_round_trip (image : list byte) :
  msg_content (message image) =
    Parts [image_url_part ("data:image/jpeg;base64," +:+ b64encode image)] ∧
  parse_data_url ("data:image/jpeg;base64," +:+ b64encode image) =
    Some ("image/jpeg", b64encode image) ∧
  b64decode (b64encode image) = Some image ∧
  decode_data_url ("data:image/jpeg;base64," +:+ b64encode image) =
    Some ("image/jpeg", image).
Proof.
  repeat split.
  - apply b64decode_b64encode.
  - apply data_url_round_trip.
Qed.

(** ** Further properties of the encoding *)

Lemma length_string_of_list_ascii (l : list ascii) :
  String.length (String.string_of_list_ascii l) = length l.
Proof. induction l as [|c l IH]; cbn; by rewrite ?IH. Qed.

Lemma b2a_base64_length (data : list byte) :
  length (b2a_base64 data) = (4 * Nat.div (length data + 2) 3)%nat.
Proof.
  induction data as [|x|x y|x y z rest IH] using list_ind3; try done.
  cbn [b2a_base64 length]. rewrite IH.
  replace (S (S (S (length rest))) + 2)%nat
    with (1 * 3 + (length rest + 2))%nat by lia.
  rewrite Nat.div_add_l by done. lia.
Qed.

(** X8.  The payload of [n] bytes has exactly [4 * ceil(n / 3)] characters:
    four for every group of three bytes, the last group padded. *)
Theorem b64encode_length (data : list byte) :
  String.length (b64encode data) = (4 * Nat.div (length data + 2) 3)%nat.
Proof.
  unfold b64encode.
  by rewrite length_string_of_list_ascii, b2a_base64_length.
Qed.

Lemma b64_char_in_alphabet (n : N) :
  (n < 64)%N →
  In (b64_char n) (String.list_ascii_of_string b64_alphabet).
Proof.
  intros Hn. unfold b64_char. apply nth_In.
  change (length (String.list_ascii_of_string b64_alphabet)) with 64%nat.
  lia.
Qed.

Lemma b2a_base64_alphabet (data : list byte) :
  Forall (λ c, In c (String.list_ascii_of_string b64_alphabet) ∨
               c = BASE64_PAD) (b2a_base64 data).
Proof.
  induction data as [|x|x y|x y z rest IH] using list_ind3.
  - constructor.
  - pose proof (byte_ok_all _ (to_N_lt x)) as Hx.
    unfold byte_ok in Hx. split_ok Hx.
    cbn [b2a_base64].
    repeat (constructor; [first [by right | left; by apply b64_char_in_alphabet]|]).
    constructor.
  - pose proof (byte_ok_all _ (to_N_lt x)) as Hx.
    pose proof (byte_ok_all _ (to_N_lt y)) as Hy.
    pose proof (second_ok_all _ _ (to_N_lt x) (to_N_lt y)) as Hxy.
    unfold byte_ok in Hx, Hy. unfold second_ok in Hxy. cbn zeta in Hxy.
    split_ok Hx. split_ok Hy. split_ok Hxy.
    cbn [b2a_base64].
    repeat (constructor; [first [by right | left; by apply b64_char_in_alphabet]|]).
    constructor.
  - pose proof (byte_ok_all _ (to_N_lt x)) as Hx.
    pose proof (byte_ok_all _ (to_N_lt z)) as Hz.
    pose proof (second_ok_all _ _ (to_N_lt x) (to_N_lt y)) as Hxy.
    pose proof (third_ok_all _ _ (to_N_lt y) (to_N_lt z)) as Hyz.
    unfold byte_ok in Hx, Hz. unfold second_ok in Hxy.
    unfold third_ok in Hyz. cbn zeta in Hxy, Hyz.
    split_ok Hx. split_ok Hz. split_ok Hxy. split_ok Hyz.
    cbn [b2a_base64].
    do 4 (constructor; [left; by apply b64_char_in_alphabet|]).
    exact IH.
Qed.

(** X9.  Every character of the payload is one of the 64 characters of the
    base64 alphabet or the padding character; in particular the payload
    holds no comma, so the comma that ends the header is the only one in
    the URL. *)
Theorem b64encode_alphabet (data : list byte) :
  Forall (λ c, In c (String.list_ascii_of_string b64_alphabet) ∨
               c = BASE64_PAD)
    (String.list_ascii_of_string (b64encode data)) ∧
  ¬ In ","%char (String.list_ascii_of_string (b64encode data)).
Proof.
  unfold b64encode. rewrite String.list_ascii_of_string_of_list_ascii.
  pose proof (b2a_base64_alphabet data) as H. split; [done|].
  intros Hin. rewrite Forall_forall in H.
  apply list_elem_of_In in Hin. destruct (H _ Hin) as [Hc|Hc]; [|done].
  revert Hc. vm_compute. intuition discriminate.
Qed.

(** X10.  Different images give different payloads, URLs and messages:
    encoding is injective. *)
Theorem message_injective (image1 image2 : list byte) :
  (b64encode image1 = b64encode image2 → image1 = image2) ∧
  (data_url (b64encode image1) = data_url (b64encode image2) →
   image1 = image2) ∧
  (message image1 = message image2 → image1 = image2).
Proof.
  assert (b64encode image1 = b64encode image2 → image1 = image2) as Hinj.
  { intros H. pose proof (b64decode_b64encode image1) as H1.
    rewrite H, b64decode_b64encode in H1. congruence. }
  split; [done|]. split.
  - unfold data_url. intros H. apply Hinj. by simplify_eq/=.
  - unfold message, encoded_string, data_url.
    intros H. apply Hinj. by simplify_eq/=.
Qed.

(** X14.  Encoding splits at multiples of three bytes: the payload of
    [data1 ++ data2] is the payload of [data1] followed by the payload of
    [data2] whenever [data1] has a length divisible by three. *)
Theorem b64encode_app (data1 data2 : list byte) :
  (length data1 mod 3 = 0)%nat →
  b64encode (data1 ++ data2) = b64encode data1 +:+ b64encode data2.
Proof.
  intros Hlen.
  assert (b2a_base64 (data1 ++ data2) =
            b2a_base64 data1 ++ b2a_base64 data2) as H.
  { induction data1 as [|x|x y|x y z rest IH] using list_ind3;
      [done|done|done|].
    cbn [app b2a_base64]. rewrite IH; [done|].
    cbn [length] in Hlen.
    replace (S (S (S (length rest)))) with (length rest + 1 * 3)%nat
      in Hlen by lia.
    by rewrite Nat.Div0.mod_add in Hlen. }
  unfold b64encode. rewrite H. clear.
  induction (b2a_base64 data1) as [|c l IH]; [done|].
  cbn. by rewrite IH.
Qed.

(** ** The properties at concrete inputs *)

Lemma uuid_of_inj : Inj (=) (=) uuid_of.
Proof.
  intros n m H. unfold uuid_of in H.
  apply (inj (String.app "uuid-")) in H. by apply (inj pretty) in H.
Qed.

Lemma format_plain_ok (template : string) :
  brace_free template = true → format_plain template = inr template.
Proof. unfold format_plain. by intros ->. Qed.

Lemma message_valid_initial (image : list byte) :
  valid_initial uuid_of (message image).
Proof. split; [done|]. by intros i n. Qed.

Lemma full_run_witness :
  valid_initial uuid_of (message jpeg_bytes) ∧
  outcome (run_cell uuid_of format_plain stub_caption stub_poem
             (message jpeg_bytes) fresh_store).1 = Finished ∧
  (msg_name <$> channel (run_cell uuid_of format_plain stub_caption stub_poem
                           (message jpeg_bytes) fresh_store).2) =
    [None; Some "Analysis Agent"; Some "Creative Agent"].
Proof.
  split; [apply message_valid_initial|].
  destruct (full_run_appends_analysis_then_creative uuid_of format_plain
              stub_caption stub_poem uuid_of_inj format_plain_ok
              (message jpeg_bytes) fresh_store
              (AIMessage "a small hedgehog on grass")
              (AIMessage "Quills like stars...")
              (message_valid_initial jpeg_bytes) eq_refl eq_refl)
    as (Hout & _ & a & c & Hch & Ha & _ & Hc & _).
  split; [exact Hout|]. rewrite Hch. cbn. by rewrite Ha, Hc.
Defined.

Lemma append_only_witness :
  valid_initial uuid_of (message jpeg_bytes) ∧
  length (history (run_cell uuid_of format_plain stub_caption stub_poem
                     (message jpeg_bytes) fresh_store).1) = 3 ∧
  ∀ N before after,
    history (run_cell uuid_of format_plain stub_caption stub_poem
               (message jpeg_bytes) fresh_store).1 !! N = Some before →
    history (run_cell uuid_of format_plain stub_caption stub_poem
               (message jpeg_bytes) fresh_store).1 !! S N = Some after →
    ∃ m, after = before ++ [m].
Proof.
  split; [apply message_valid_initial|].
  destruct (conversation_append_only uuid_of format_plain stub_caption
              stub_poem uuid_of_inj format_plain_ok (message jpeg_bytes)
              fresh_store (message_valid_initial jpeg_bytes))
    as (_ & _ & _ & Hlen & _ & Happ & _ & _).
  split; [|exact Happ]. rewrite Hlen. reflexivity.
Defined.

Lemma analyst_failure_witness :
  valid_initial uuid_of (message jpeg_bytes) ∧
  endpoint_down (analysis_input uuid_of (message jpeg_bytes) fresh_store) =
    inl (PyExn "ConnectionError" "connection refused") ∧
  outcome (run_cell uuid_of format_plain endpoint_down stub_poem
             (message jpeg_bytes) fresh_store).1 =
    Raised (Some "Analysis Agent")
      (PyExn "ConnectionError" "connection refused").
Proof.
  split; [apply message_valid_initial|]. split; [reflexivity|].
  apply (analyst_failure_aborts_run uuid_of format_plain endpoint_down
           stub_poem uuid_of_inj format_plain_ok (message jpeg_bytes)
           fresh_store (PyExn "ConnectionError" "connection refused")
           (message_valid_initial jpeg_bytes) eq_refl).
Defined.

Lemma creator_input_witness :
  valid_initial uuid_of (message jpeg_bytes) ∧
  creative_call uuid_of (message jpeg_bytes) fresh_store
    (AIMessage "a small hedgehog on grass")
    ∈ calls_during uuid_of format_plain stub_caption stub_poem
        (message jpeg_bytes) fresh_store.
Proof.
  split; [apply message_valid_initial|].
  apply (creator_runs_on_analyst_output uuid_of format_plain stub_caption
           stub_poem uuid_of_inj format_plain_ok (message jpeg_bytes)
           fresh_store (message_valid_initial jpeg_bytes)).
  reflexivity.
Defined.

Lemma respond_witness :
  brace_free creative_prompt = true ∧
  (agent_node format_plain (mkState [message jpeg_bytes])
     (create_agent (mkChatOllama "moondream" stub_caption) creative_prompt)
     "Analysis Agent" fresh_store).1 =
    inr (mkState
           [HumanMessage (Text "a small hedgehog on grass")
              (Some "Analysis Agent")]).
Proof.
  split; [reflexivity|].
  apply (respond_prepends_instruction_and_wraps format_plain format_plain_ok
           (mkState [message jpeg_bytes])
           (mkChatOllama "moondream" stub_caption) creative_prompt
           "Analysis Agent" fresh_store eq_refl).
Defined.

Lemma stubbed_run_witness :
  stubbed stub_caption "a small hedgehog on grass" ∧
  stubbed stub_poem "Quills like stars..." ∧
  output (run_cell uuid_of format_plain stub_caption stub_poem
            (message jpeg_bytes) fresh_store).1 =
    [ (Some "Analysis Agent", Text "a small hedgehog on grass");
      (Some "Creative Agent", Text "Quills like stars...") ].
Proof.
  split; [by intros input|]. split; [by intros input|].
  apply (stubbed_run_output uuid_of format_plain stub_caption stub_poem
           uuid_of_inj format_plain_ok jpeg_bytes fresh_store
           (λ _, eq_refl) (λ _, eq_refl)).
Defined.

Lemma shared_prompt_witness :
  prompt (creative_agent stub_poem) = prompt (analysis_agent stub_caption) ∧
  llm_log (analysis_node format_plain stub_caption
             (mkState [message jpeg_bytes]) fresh_store).2 =
    [mkCall "moondream"
       [SystemMessage creative_prompt; message jpeg_bytes]].
Proof.
  pose proof (both_agents_use_creative_prompt format_plain stub_caption
                stub_poem format_plain_ok)
    as (_ & Hsame & _ & _ & _ & _ & _ & Hlog).
  split; [exact Hsame|].
  exact (Hlog (mkState [message jpeg_bytes]) fresh_store).
Defined.

Lemma human_messages_witness :
  valid_initial uuid_of (message jpeg_bytes) ∧
  ∃ appended,
    channel (run_cell uuid_of format_plain stub_caption stub_poem
               (message jpeg_bytes) fresh_store).2 =
      stored_initial uuid_of (message jpeg_bytes) fresh_store :: appended ∧
    Forall (λ m, msg_type m = human ∧
                 (msg_name m = Some "Analysis Agent" ∨
                  msg_name m = Some "Creative Agent")) appended.
Proof.
  split; [apply message_valid_initial|].
  apply (agent_messages_are_human uuid_of format_plain stub_caption stub_poem
           uuid_of_inj format_plain_ok (message jpeg_bytes) fresh_store
           (message_valid_initial jpeg_bytes)).
Defined.

(** ** The further properties at concrete inputs *)

Lemma text_request_valid_initial : valid_initial uuid_of text_request.
Proof.
  split; [done|]. intros i n [= <-]. unfold uuid_of. cbn [String.append].
  discriminate.
Qed.

Lemma run_ending_witness :
  valid_initial uuid_of (message jpeg_bytes) ∧
  match outcome (run_cell uuid_of format_plain stub_caption endpoint_down
                   (message jpeg_bytes) fresh_store).1 with
  | Finished => False
  | Raised during e =>
      during = Some "Creative Agent" ∧
      e = PyExn "ConnectionError" "connection refused"
  end.
Proof.
  split; [apply message_valid_initial|].
  pose proof (run_fails_only_with_a_model uuid_of format_plain stub_caption
                endpoint_down uuid_of_inj format_plain_ok
                (message jpeg_bytes) fresh_store
                (message_valid_initial jpeg_bytes)) as H.
  destruct (outcome _) as [|during e].
  - destruct H as (r1 & r2 & _ & H). discriminate H.
  - destruct H as [[_ H]|(-> & r1 & _ & H)]; [discriminate H|].
    split; [reflexivity|]. by injection H.
Defined.

Lemma creator_failure_witness :
  valid_initial uuid_of (message jpeg_bytes) ∧
  output (run_cell uuid_of format_plain stub_caption endpoint_down
            (message jpeg_bytes) fresh_store).1 =
    [(Some "Analysis Agent", Text "a small hedgehog on grass")].
Proof.
  split; [apply message_valid_initial|].
  apply (creator_failure_keeps_analyst_output uuid_of format_plain
           stub_caption endpoint_down uuid_of_inj format_plain_ok
           (message jpeg_bytes) fresh_store
           (AIMessage "a small hedgehog on grass")
           (PyExn "ConnectionError" "connection refused")
           (message_valid_initial jpeg_bytes) eq_refl eq_refl).
Defined.

Lemma model_calls_witness :
  valid_initial uuid_of (message jpeg_bytes) ∧
  call_model <$> calls_during uuid_of format_plain stub_caption stub_poem
                   (message jpeg_bytes) fresh_store =
    ["moondream"; "gemma2:2b"].
Proof.
  split; [apply message_valid_initial|].
  assert (calls_during uuid_of format_plain stub_caption stub_poem
            (message jpeg_bytes) fresh_store =
          [analysis_call uuid_of (message jpeg_bytes) fresh_store;
           creative_call uuid_of (message jpeg_bytes) fresh_store
             (AIMessage "a small hedgehog on grass")]) as H.
  { exact (each_model_is_asked_at_most_once uuid_of format_plain
             stub_caption stub_poem uuid_of_inj format_plain_ok
             (message jpeg_bytes) fresh_store
             (message_valid_initial jpeg_bytes)). }
  by rewrite H.
Defined.

Lemma stream_any_input_witness :
  Forall (valid_initial uuid_of) [message jpeg_bytes; text_request] ∧
  NoDup (omap msg_id [message jpeg_bytes; text_request]) ∧
  msg_name <$>
    channel (stream uuid_of
               (graph format_plain stub_caption stub_poem)
               (mkState [message jpeg_bytes; text_request]) print_event
               fresh_store).2 =
    [None; None; Some "Analysis Agent"; Some "Creative Agent"].
Proof.
  assert (Forall (valid_initial uuid_of) [message jpeg_bytes; text_request])
    as Hin.
  { apply Forall_cons. split; [apply message_valid_initial|].
    apply Forall_cons. split; [apply text_request_valid_initial|].
    apply Forall_nil. done. }
  assert (NoDup (omap msg_id [message jpeg_bytes; text_request])) as Hnd.
  { apply NoDup_singleton. }
  split; [exact Hin|]. split; [exact Hnd|].
  destruct (stream_any_input uuid_of format_plain stub_caption stub_poem
              uuid_of_inj format_plain_ok
              [message jpeg_bytes; text_request] fresh_store
              (AIMessage "a small hedgehog on grass")
              (AIMessage "Quills like stars...") Hin Hnd eq_refl eq_refl)
    as (_ & _ & Hch & _).
  by rewrite Hch.
Defined.

Lemma distinct_ids_witness :
  valid_initial uuid_of (message jpeg_bytes) ∧
  Forall (λ conv, Forall (λ m, is_Some (msg_id m)) conv ∧
                  NoDup (msg_id <$> conv))
    (history (run_cell uuid_of format_plain stub_caption stub_poem
                (message jpeg_bytes) fresh_store).1).
Proof.
  split; [apply message_valid_initial|].
  apply (conversation_ids_distinct uuid_of format_plain stub_caption
           stub_poem uuid_of_inj format_plain_ok (message jpeg_bytes)
           fresh_store (message_valid_initial jpeg_bytes)).
Defined.

Lemma request_carries_input_witness :
  valid_initial uuid_of (message jpeg_bytes) ∧
  ∀ c, c ∈ calls_during uuid_of format_plain stub_caption stub_poem
             (message jpeg_bytes) fresh_store →
    ∃ rest,
      call_input c =
        SystemMessage creative_prompt ::
        stored_initial uuid_of (message jpeg_bytes) fresh_store :: rest.
Proof.
  split; [apply message_valid_initial|].
  apply (every_request_carries_the_input uuid_of format_plain stub_caption
           stub_poem uuid_of_inj format_plain_ok (message jpeg_bytes)
           fresh_store (message_valid_initial jpeg_bytes)).
Defined.

Lemma events_in_step_witness :
  valid_initial uuid_of (message jpeg_bytes) ∧
  length (output (run_cell uuid_of format_plain stub_caption stub_poem
                    (message jpeg_bytes) fresh_store).1) =
    length (events (run_cell uuid_of format_plain stub_caption stub_poem
                      (message jpeg_bytes) fresh_store).1).
Proof.
  split; [apply message_valid_initial|].
  apply (events_and_output_in_step uuid_of format_plain stub_caption
           stub_poem uuid_of_inj format_plain_ok (message jpeg_bytes)
           fresh_store (message_valid_initial jpeg_bytes)).
Defined.

Lemma message_injective_witness :
  message jpeg_bytes = message [xff; xd8; xff; xe0; x00; x10] ∧
  jpeg_bytes = [xff; xd8; xff; xe0; x00; x10].
Proof.
  split; [reflexivity|].
  apply (message_injective jpeg_bytes [xff; xd8; xff; xe0; x00; x10]).
  reflexivity.
Defined.

Lemma b64encode_app_witness :
  (length [xff; xd8; xff] mod 3 = 0)%nat ∧
  b64encode ([xff; xd8; xff] ++ [xe0; x00; x10]) =
    b64encode [xff; xd8; xff] +:+ b64encode [xe0; x00; x10].
Proof.
  split; [reflexivity|].
  apply (b64encode_app [xff; xd8; xff] [xe0; x00; x10]). reflexivity.
Defined.
